(** * Governance layer of gemini-cli-enterprise: a shallow embedding

    Sources embedded here:
    - [packages/core/src/governance/PIIFilter.ts]        (module [PIIFilter])
    - [RiskClassifier.ts]                                (module [RiskClassifier])
    - [packages/core/src/governance/OutputGuardrail.ts]  (module [OutputGuardrail])
    - [packages/core/src/governance/AuditLogger.ts]      (module [AuditLogger])
    - [GovernanceEngine.ts], the version with [approvalGranted]
      (module [GovernanceEngine]).

    The regular-expression literals of the TypeScript code are embedded as
    abstract syntax and run by a backtracking matcher that explores the
    alternatives in the priority order of ECMAScript (greedy quantifiers try
    the longest repetition first).  [String.prototype.match] and
    [String.prototype.replace] with a global regex are embedded as scans over
    the string, with the character before the current position available to
    [\b]. *)

From Stdlib Require Import Bool Arith List Lia String Ascii.
Import ListNotations.
Open Scope string_scope.
Open Scope list_scope.

Module Regex.

(** ** Characters *)

Definition in_range (lo hi : nat) (c : ascii) : bool :=
  Nat.leb lo (nat_of_ascii c) && Nat.leb (nat_of_ascii c) hi.

Definition is_digit : ascii -> bool := in_range 48 57.
Definition is_upper : ascii -> bool := in_range 65 90.
Definition is_lower : ascii -> bool := in_range 97 122.
Definition is_alpha (c : ascii) : bool := is_upper c || is_lower c.
Definition is_alnum (c : ascii) : bool := is_alpha c || is_digit c.
(** [\w] of ECMAScript without the [u] flag: [[A-Za-z0-9_]]. *)
Definition is_word (c : ascii) : bool := is_alnum c || Ascii.eqb c "_"%char.

Definition word_opt (o : option ascii) : bool :=
  match o with Some c => is_word c | None => false end.

(** [\b] between the previous character [p] (None at the start of the
    string) and the next one (None at the end). *)
Definition at_boundary (p : option ascii) (s : list ascii) : bool :=
  xorb (word_opt p) (word_opt (hd_error s)).

Fixpoint last_opt (w : list ascii) (p : option ascii) : option ascii :=
  match w with [] => p | x :: t => last_opt t (Some x) end.

(** ** Regular expressions *)

Inductive re : Type :=
| REps
| RChar (f : ascii -> bool)                       (* one character of a class *)
| RSeq (r1 r2 : re)
| RRep (f : ascii -> bool) (min : nat) (max : option nat)
                                                  (* [f{min,max}], greedy *)
| RBnd.                                           (* [\b] *)

Definition seqs (l : list re) : re := fold_right RSeq REps l.

Definition lit (s : string) : re :=
  seqs (map (fun c => RChar (Ascii.eqb c)) (list_ascii_of_string s)).

(** A position of the scan: the character before it and the rest. *)
Definition cursor : Type := (option ascii * list ascii)%type.

Definition advance (c : cursor) (n : nat) : cursor :=
  (last_opt (firstn n (snd c)) (fst c), skipn n (snd c)).

Fixpoint run_len (f : ascii -> bool) (s : list ascii) : nat :=
  match s with
  | [] => 0
  | x :: t => if f x then S (run_len f t) else 0
  end.

Definition cap (mx : option nat) (n : nat) : nat :=
  match mx with Some m => Nat.min m n | None => n end.

(** Backtracking over the repetition counts [n, n-1, ..., mn]. *)
Fixpoint try_down (mn n : nat) (c : cursor) (k : cursor -> option cursor)
  : option cursor :=
  if Nat.ltb n mn then None else
  match k (advance c n) with
  | Some res => Some res
  | None => match n with O => None | S n' => try_down mn n' c k end
  end.

(** Continuation-passing backtracking matcher. *)
Fixpoint mtch (r : re) (c : cursor) (k : cursor -> option cursor)
  : option cursor :=
  match r with
  | REps => k c
  | RChar f =>
      match snd c with
      | x :: t => if f x then k (Some x, t) else None
      | [] => None
      end
  | RSeq r1 r2 => mtch r1 c (fun c' => mtch r2 c' k)
  | RRep f mn mx => try_down mn (cap mx (run_len f (snd c))) c k
  | RBnd => if at_boundary (fst c) (snd c) then k c else None
  end.

(** [RegExp.prototype.exec] at one position: the cursor after the match. *)
Definition exec (r : re) (p : option ascii) (s : list ascii) : option cursor :=
  mtch r (p, s) (fun c => Some c).

Definition is_some {A : Type} (o : option A) : bool :=
  match o with Some _ => true | None => false end.

(** [str.match(re) !== null] for a global regex: a match at some position. *)
Fixpoint has_match (r : re) (p : option ascii) (s : list ascii) : bool :=
  match s with
  | [] => is_some (exec r p [])
  | c :: t => is_some (exec r p (c :: t)) || has_match r (Some c) t
  end.

(** [str.replace(re, ph)] for a global regex: scan from the left, replace
    every match by [ph] and resume after it; an empty match inserts [ph] and
    advances by one character. *)
Fixpoint replace_go (r : re) (ph : list ascii) (fuel : nat)
  (p : option ascii) (s : list ascii) : list ascii :=
  match fuel with
  | O => s
  | S f =>
      match exec r p s with
      | Some (p', rest) =>
          if Nat.ltb (List.length rest) (List.length s) then ph ++ replace_go r ph f p' rest
          else match s with
               | [] => ph
               | c :: t => ph ++ c :: replace_go r ph f (Some c) t
               end
      | None =>
          match s with
          | [] => []
          | c :: t => c :: replace_go r ph f (Some c) t
          end
      end
  end.

Definition replace_all (r : re) (ph : list ascii) (s : list ascii) : list ascii :=
  replace_go r ph (S (List.length s)) None s.

(** ** Relational semantics of a match *)

Definition within (mx : option nat) (n : nat) : Prop :=
  match mx with Some m => n <= m | None => True end.

(** [M r p w rest]: [r] matches exactly [w], after the character [p] and
    before [rest]. *)
Inductive M : re -> option ascii -> list ascii -> list ascii -> Prop :=
| M_eps p rest : M REps p [] rest
| M_char f p x rest : f x = true -> M (RChar f) p [x] rest
| M_seq r1 r2 p w1 w2 rest :
    M r1 p w1 (w2 ++ rest) -> M r2 (last_opt w1 p) w2 rest ->
    M (RSeq r1 r2) p (w1 ++ w2) rest
| M_rep f mn mx p w rest :
    forallb f w = true -> mn <= List.length w -> within mx (List.length w) ->
    M (RRep f mn mx) p w rest
| M_bnd p rest : at_boundary p rest = true -> M RBnd p [] rest.

(** ** Auxiliary notions used by the proofs *)

(** The characters a regex can consume. *)
Fixpoint re_chars (r : re) (c : ascii) : bool :=
  match r with
  | REps | RBnd => false
  | RChar f | RRep f _ _ => f c
  | RSeq r1 r2 => re_chars r1 c || re_chars r2 c
  end.

(** A regex without [\b] does not look outside its match. *)
Fixpoint bnd_free (r : re) : bool :=
  match r with
  | RBnd => false
  | RSeq r1 r2 => bnd_free r1 && bnd_free r2
  | _ => true
  end.

(** The positions of [s] at which the scan of [replace_go rk] finds no
    match of [rk] all satisfy [ok]. *)
Fixpoint scan_gaps (rk : re) (ok : option ascii -> list ascii -> Prop)
  (fuel : nat) (p : option ascii) (s : list ascii) : Prop :=
  match fuel with
  | O => True
  | S f =>
      match exec rk p s with
      | Some (p', rest) =>
          if Nat.ltb (List.length rest) (List.length s)
          then scan_gaps rk ok f p' rest else True
      | None =>
          ok p s /\ match s with [] => True | c :: t => scan_gaps rk ok f (Some c) t end
      end
  end.

Definition count_char (b : ascii) (s : list ascii) : nat :=
  List.length (filter (Ascii.eqb b) s).

(** Static analyses of a regex, each one a sufficient condition checked by
    evaluation.  [implies f g]: every character of class [f] is in [g]. *)
Definition all_ascii : list ascii := map ascii_of_nat (seq 0 256).

Definition implies (f g : ascii -> bool) : bool :=
  forallb (fun c => negb (f c) || g c) all_ascii.

(** Only the empty word matches. *)
Fixpoint empty_only (r : re) : bool :=
  match r with
  | REps | RBnd => true
  | RSeq r1 r2 => empty_only r1 && empty_only r2
  | RRep _ _ (Some 0) => true
  | _ => false
  end.

(** Every match is non-empty. *)
Fixpoint non_empty (r : re) : bool :=
  match r with
  | RChar _ => true
  | RRep _ mn _ => Nat.ltb 0 mn
  | RSeq r1 r2 => non_empty r1 || non_empty r2
  | _ => false
  end.

(** Every match starts with a word character. *)
Fixpoint starts_w (r : re) : bool :=
  match r with
  | RChar f => implies f is_word
  | RRep f mn _ => Nat.ltb 0 mn && implies f is_word
  | RSeq r1 r2 => starts_w r1 || (empty_only r1 && starts_w r2)
  | _ => false
  end.

(** Every match ends with a word character. *)
Fixpoint ends_w (r : re) : bool :=
  match r with
  | RChar f => implies f is_word
  | RRep f mn _ => Nat.ltb 0 mn && implies f is_word
  | RSeq r1 r2 => ends_w r2 || (empty_only r2 && ends_w r1)
  | _ => false
  end.

(** The regex begins with [\b]. *)
Fixpoint bnd_start (r : re) : bool :=
  match r with
  | RBnd => true
  | RSeq r1 _ => bnd_start r1
  | _ => false
  end.

(** The regex ends with [\b]. *)
Fixpoint bnd_end (r : re) : bool :=
  match r with
  | RBnd => true
  | RSeq r1 r2 => bnd_end r2 || (empty_only r2 && bnd_end r1)
  | _ => false
  end.

(** A regex of the form [\b ... \b] whose matches start and end with a
    word character. *)
Definition word_bounded (r : re) : bool :=
  starts_w r && ends_w r && bnd_start r && bnd_end r.

(** The characters one of which every PII match contains. *)
Definition keyc (c : ascii) : bool :=
  Ascii.eqb c "@"%char || Ascii.eqb c "-"%char || is_digit c.

(** Every match contains a key character. *)
Fixpoint has_key (r : re) : bool :=
  match r with
  | RChar f => implies f keyc
  | RRep f mn _ => Nat.ltb 0 mn && implies f keyc
  | RSeq r1 r2 => has_key r1 || has_key r2
  | _ => false
  end.

(** The side conditions on the PII patterns used by the proofs. *)
Definition free_pii (r : re) : bool :=
  bnd_free r && non_empty r && has_key r &&
  negb (re_chars r "["%char) && negb (re_chars r "]"%char).

Definition bounded_pii (r : re) : bool :=
  word_bounded r && non_empty r && has_key r &&
  negb (re_chars r "["%char) && negb (re_chars r "]"%char).

(** A placeholder [[...]] without key characters. *)
Definition placeholder_ok (ph : list ascii) : bool :=
  match ph with c :: _ => Ascii.eqb c "["%char | [] => false end &&
  match rev ph with c :: _ => Ascii.eqb c "]"%char | [] => false end &&
  forallb (fun c => negb (keyc c)) ph.

End Regex.

(** ** [types.ts] *)

Module Types.
Import Regex.

Inductive RiskLevel : Type := LOW | MEDIUM | HIGH | CRITICAL.

Definition RiskLevel_eqb (a b : RiskLevel) : bool :=
  match a, b with
  | LOW, LOW | MEDIUM, MEDIUM | HIGH, HIGH | CRITICAL, CRITICAL => true
  | _, _ => false
  end.

Inductive Decision : Type := APPROVED | BLOCKED | FLAGGED_FOR_REVIEW.

(** A [Part] of [@google/genai]: an optional text and the other (non-text)
    payload fields, kept opaque. *)
Record Part : Type := mkPart { text : option string; payload : option string }.

Record Content : Type := mkContent { parts : option (list Part) }.
Record Candidate : Type := mkCandidate { content : option Content }.
Record GenerateContentResponse : Type :=
  mkResponse { candidates : option (list Candidate) }.

(** [Record<string, unknown>], opaque to the governance layer. *)
Definition Params : Type := list (string * string).

Record GovernanceContext : Type := mkContext {
  userId : string;
  requestId : string;
  timestamp : nat;
  originalInput : list Part;
  redactedInput : option (list Part);
  riskLevel : option RiskLevel;
  riskCategory : option string;
  modelVersion : option string;
  modelParams : option Params;
  output : option GenerateContentResponse;
  guardrailDecision : option Decision;
  justification : option string }.

Record IPolicies : Type := mkPolicies {
  piiRedaction : bool;
  blockHighRisk : bool;
  requireHumanReview : bool }.

Definition DEFAULT_POLICIES : IPolicies :=
  {| piiRedaction := true; blockHighRisk := false; requireHumanReview := true |}.

(** JavaScript truthiness of an optional string. *)
Definition truthy (o : option string) : option string :=
  match o with
  | Some s => if String.eqb s EmptyString then None else Some s
  | None => None
  end.

Definition text_chars (s : string) : list ascii := list_ascii_of_string s.

Fixpoint join (sep : list ascii) (l : list (list ascii)) : list ascii :=
  match l with
  | [] => []
  | [x] => x
  | x :: t => x ++ sep ++ join sep t
  end.

Definition sp : list ascii := [" "%char].

End Types.

(** ** [PIIFilter.ts] *)

Module PIIFilter.
Import Regex Types.

Definition one_of (cs : string) (c : ascii) : bool :=
  existsb (Ascii.eqb c) (list_ascii_of_string cs).

(** [[a-zA-Z0-9._%+-]] and [[a-zA-Z0-9.-]] *)
Definition is_local (c : ascii) : bool := is_alnum c || one_of "._%+-" c.
Definition is_domain (c : ascii) : bool := is_alnum c || one_of ".-" c.

(** [/[a-zA-Z0-9._%+-]+@[a-zA-Z0-9.-]+\.[a-zA-Z]{2,}/g] *)
Definition emailRegex : re :=
  seqs [RRep is_local 1 None; RChar (Ascii.eqb "@"); RRep is_domain 1 None;
        RChar (Ascii.eqb "."); RRep is_alpha 2 None].

(** [/\b\d{3}[-.]?\d{3}[-.]?\d{4}\b/g] *)
Definition phoneRegex : re :=
  seqs [RBnd; RRep is_digit 3 (Some 3); RRep (one_of "-.") 0 (Some 1);
        RRep is_digit 3 (Some 3); RRep (one_of "-.") 0 (Some 1);
        RRep is_digit 4 (Some 4); RBnd].

(** [/\bEMP-\d{5,}\b/g] *)
Definition employeeIdRegex : re :=
  seqs [RBnd; lit "EMP-"; RRep is_digit 5 None; RBnd].

(** [/\b(?:\d{4}[- ]?){3}\d{4}\b/g], the group repeated three times *)
Definition card_group : re :=
  RSeq (RRep is_digit 4 (Some 4)) (RRep (one_of "- ") 0 (Some 1)).

Definition creditCardRegex : re :=
  seqs [RBnd; card_group; card_group; card_group; RRep is_digit 4 (Some 4); RBnd].

(** [/\bPROJECT-[A-Z0-9]+\b/g] *)
Definition projectCodewordRegex : re :=
  seqs [RBnd; lit "PROJECT-"; RRep (fun c => is_upper c || is_digit c) 1 None; RBnd].

(** The closure state of [redact]: [wasRedacted] and [justifications]. *)
Definition RState : Type := (bool * list string)%type.

(** One [if (newText.match(re)) { ... }] block of [redact]. *)
Definition pii_step (rx : re) (placeholder label : string)
  (newText : list ascii) (st : RState) : list ascii * RState :=
  let '(wasRedacted, justifications) := st in
  if has_match rx None newText then
    (replace_all rx (list_ascii_of_string placeholder) newText,
     (true, if existsb (String.eqb label) justifications then justifications
            else justifications ++ [label]))
  else (newText, st).

(** The body of [if (part.text) { ... }]: the five blocks in order. *)
Definition redact_text (t : list ascii) (st : RState) : list ascii * RState :=
  let '(t, st) := pii_step emailRegex "[REDACTED_EMAIL]" "Email PII detected" t st in
  let '(t, st) := pii_step phoneRegex "[REDACTED_PHONE]" "Phone PII detected" t st in
  let '(t, st) := pii_step employeeIdRegex "[REDACTED_EMP_ID]" "Employee ID detected" t st in
  let '(t, st) := pii_step creditCardRegex "[REDACTED_CREDIT_CARD]" "Credit Card detected" t st in
  pii_step projectCodewordRegex "[REDACTED_PROJECT_CODE]" "Project Codeword detected" t st.

(** The callback of [parts.map]: [{ ...part, text: newText }] or [part]. *)
Definition redact_part (part : Part) (st : RState) : Part * RState :=
  match truthy (text part) with
  | Some t =>
      let '(newText, st') := redact_text (text_chars t) st in
      (mkPart (Some (string_of_list_ascii newText)) (payload part), st')
  | None => (part, st)
  end.

Fixpoint redact_map (ps : list Part) (st : RState) : list Part * RState :=
  match ps with
  | [] => ([], st)
  | part :: rest =>
      let '(part', st1) := redact_part part st in
      let '(rest', st2) := redact_map rest st1 in
      (part' :: rest', st2)
  end.

Record RedactResult : Type := mkRedactResult {
  redactedParts : list Part;
  wasRedacted : bool;
  justifications : list string }.

Definition redact (ps : list Part) : RedactResult :=
  let '(rp, (w, j)) := redact_map ps (false, []) in mkRedactResult rp w j.

(** The same code with JavaScript's object heap made explicit: a [Part]
    object lives at a location of [store]; the array [parts] holds
    locations.  The spread [{ ...part, text: newText }] allocates a fresh
    object; a part without text is returned by reference. *)
Definition store : Type := list Part.
Definition default_part : Part := mkPart None None.

Fixpoint redact_in_store (h : store) (arr : list nat) (st : RState)
  : store * list nat * RState :=
  match arr with
  | [] => (h, [], st)
  | l :: rest =>
      let part := nth l h default_part in
      match truthy (text part) with
      | Some t =>
          let '(newText, st1) := redact_text (text_chars t) st in
          let h1 := h ++ [mkPart (Some (string_of_list_ascii newText)) (payload part)] in
          let '(h2, rest', st2) := redact_in_store h1 rest st1 in
          (h2, List.length h :: rest', st2)
      | None =>
          let '(h2, rest', st2) := redact_in_store h rest st in
          (h2, l :: rest', st2)
      end
  end.

(** No pattern matches the text of a part. *)
Definition clean_text (t : string) : Prop :=
  has_match emailRegex None (text_chars t) = false /\
  has_match phoneRegex None (text_chars t) = false /\
  has_match employeeIdRegex None (text_chars t) = false /\
  has_match creditCardRegex None (text_chars t) = false /\
  has_match projectCodewordRegex None (text_chars t) = false.

(** The parts an array of locations refers to. *)
Definition read (h : store) (arr : list nat) : list Part :=
  map (fun l => nth l h default_part) arr.

End PIIFilter.

(** ** [RiskClassifier.ts] *)

Module RiskClassifier.
Import Regex Types.

(** [String.prototype.toLowerCase] on ASCII characters. *)
Definition lower_char (c : ascii) : ascii :=
  if is_upper c then ascii_of_nat (nat_of_ascii c + 32) else c.

Definition toLowerCase (s : list ascii) : list ascii := map lower_char s.

Fixpoint starts_with (pre s : list ascii) : bool :=
  match pre, s with
  | [], _ => true
  | x :: pre', y :: s' => Ascii.eqb x y && starts_with pre' s'
  | _ :: _, [] => false
  end.

(** [s.includes(needle)] *)
Fixpoint includes (s needle : list ascii) : bool :=
  starts_with needle s ||
  match s with [] => false | _ :: t => includes t needle end.

Definition has (s : list ascii) (kw : string) : bool :=
  includes s (list_ascii_of_string kw).

(** [for (const part of parts) if (part.text) combinedText += part.text + ' ';] *)
Fixpoint combine (parts : list Part) (acc : list ascii) : list ascii :=
  match parts with
  | [] => acc
  | part :: rest =>
      match truthy (text part) with
      | Some t => combine rest (acc ++ text_chars t ++ sp)
      | None => combine rest acc
      end
  end.

Definition classify (parts : list Part) : RiskLevel * string :=
  let combinedText := toLowerCase (combine parts []) in
  if has combinedText "confidential" || has combinedText "secret"
     || has combinedText "proprietary" then (HIGH, "Proprietary Information")
  else if has combinedText "hr decision" || has combinedText "fire employee"
     || has combinedText "hiring" then (HIGH, "HR Decision")
  else if has combinedText "financial advice" || has combinedText "invest"
     || has combinedText "stock" then (HIGH, "Financial Advice")
  else if has combinedText "medical" || has combinedText "diagnosis"
     then (HIGH, "Medical Advice")
  else (LOW, "General").

(** The classifier as the specification words it: a fixed, ordered rule
    table; the first rule with a keyword occurring in the case-folded,
    space-joined text of the (non-empty) text fragments decides. *)
Definition rule_table : list (list string * string) :=
  [ (["confidential"; "secret"; "proprietary"], "Proprietary Information");
    (["hr decision"; "fire employee"; "hiring"], "HR Decision");
    (["financial advice"; "invest"; "stock"], "Financial Advice");
    (["medical"; "diagnosis"], "Medical Advice") ].

Fixpoint fragment_texts (parts : list Part) : list (list ascii) :=
  match parts with
  | [] => []
  | part :: rest =>
      match truthy (text part) with
      | Some t => text_chars t :: fragment_texts rest
      | None => fragment_texts rest
      end
  end.

Definition spec_buffer (parts : list Part) : list ascii :=
  toLowerCase (join sp (fragment_texts parts)).

Fixpoint first_rule (buf : list ascii) (rules : list (list string * string))
  : option string :=
  match rules with
  | [] => None
  | (kws, cat) :: rest =>
      if existsb (has buf) kws then Some cat else first_rule buf rest
  end.

Definition classify_by_rules (parts : list Part) : RiskLevel * string :=
  match first_rule (spec_buffer parts) rule_table with
  | Some cat => (HIGH, cat)
  | None => (LOW, "General")
  end.

End RiskClassifier.

(** ** [OutputGuardrail.ts] *)

Module OutputGuardrail.
Import Regex Types.

(** [/[a-zA-Z0-9._%+-]+@[a-zA-Z0-9.-]+\.[a-zA-Z]{2,}/g], a literal of its
    own in [validate]. *)
Definition piiRegex : re :=
  seqs [RRep PIIFilter.is_local 1 None; RChar (Ascii.eqb "@");
        RRep PIIFilter.is_domain 1 None; RChar (Ascii.eqb ".");
        RRep is_alpha 2 None].

(** [response.candidates?.[0]?.content] *)
Definition first_content (response : GenerateContentResponse) : option Content :=
  match candidates response with
  | Some (c :: _) => content c
  | _ => None
  end.

(** [content.parts.map(p => p.text || '').join(' ')] *)
Definition text_or_empty (p : Part) : list ascii :=
  match truthy (text p) with Some t => text_chars t | None => [] end.

Definition content_text (c : Content) : list ascii :=
  match parts c with
  | Some ps => join sp (map text_or_empty ps)
  | None => []
  end.

Definition validate (response : GenerateContentResponse) (riskLevel : RiskLevel)
  : Decision * option string :=
  match first_content response with
  | None => (APPROVED, None)
  | Some c =>
      let txt := content_text c in
      if has_match piiRegex None txt then (BLOCKED, Some "PII detected in output")
      else if RiskLevel_eqb riskLevel HIGH then
        (FLAGGED_FOR_REVIEW, Some "High risk use case requires human review")
      else (APPROVED, None)
  end.

End OutputGuardrail.

(** ** [AuditLogger.ts] *)

Module AuditLogger.
Import Types.

(** One line of [audit_trail.jsonl].  The timestamp is kept as the number
    that [new Date(..).toISOString()] renders. *)
Record AuditEntry : Type := mkEntry {
  e_timestamp : nat;
  e_userId : string;
  e_requestId : string;
  e_riskLevel : option RiskLevel;
  e_riskCategory : option string;
  e_modelVersion : option string;
  e_modelParams : option Params;
  e_guardrailDecision : option Decision;
  e_justification : option string;
  e_inputRedacted : option (list Part);
  e_output : string }.

Definition entry_of (context : GovernanceContext) : AuditEntry :=
  {| e_timestamp := timestamp context;
     e_userId := userId context;
     e_requestId := requestId context;
     e_riskLevel := riskLevel context;
     e_riskCategory := riskCategory context;
     e_modelVersion := modelVersion context;
     e_modelParams := modelParams context;
     e_guardrailDecision := guardrailDecision context;
     e_justification := justification context;
     e_inputRedacted := redactedInput context;
     e_output := match output context with
                 | Some _ => "Generated Content Present"
                 | None => "No Output" end |}.

(** The append-only file, as the list of its lines. *)
Definition trail : Type := list AuditEntry.

(** [fs.appendFileSync(this.logFilePath, JSON.stringify(logEntry) + '\n')] *)
Definition log (context : GovernanceContext) (t : trail) : trail :=
  t ++ [entry_of context].

End AuditLogger.

(** ** [GovernanceEngine.ts] *)

Module GovernanceEngine.
Import Regex Types AuditLogger.

(** What [interceptRequest] reads from its environment: [randomUUID()],
    [process.env.USER] and [Date.now()]. *)
Record Env : Type := mkEnv { env_uuid : string; env_USER : option string; env_now : nat }.

Record RequestResult : Type := mkRequestResult {
  rq_context : GovernanceContext;
  rq_proceed : bool;
  rq_error : option string;
  rq_requiresApproval : option bool }.

Definition is_high (l : RiskLevel) : bool := RiskLevel_eqb l HIGH.

(** [options.approvalGranted], absent or a boolean. *)
Definition approved (approvalGranted : option bool) : bool :=
  match approvalGranted with Some true => true | _ => false end.

Fixpoint join_str (sep : string) (l : list string) : string :=
  match l with
  | [] => EmptyString
  | [x] => x
  | x :: t => String.append x (String.append sep (join_str sep t))
  end.

(** [interceptRequest]; [policies] is the engine's [this.policies] field
    ([DEFAULT_POLICIES] in the source), [t] the audit trail. *)
Definition interceptRequest (policies : IPolicies) (env : Env)
  (input : list Part) (modelVersion : string) (modelParams : Params)
  (approvalGranted : option bool) (t : trail) : RequestResult * trail :=
  let requestId := env_uuid env in
  let userId := match truthy (env_USER env) with Some u => u | None => "unknown_user" end in
  let '(redactedInput, justification) :=
    if piiRedaction policies then
      let result := PIIFilter.redact input in
      (PIIFilter.redactedParts result,
       if PIIFilter.wasRedacted result
       then String.append "PII Redacted: " (join_str ", " (PIIFilter.justifications result))
       else EmptyString)
    else (input, EmptyString) in
  let '(level, category) := RiskClassifier.classify redactedInput in
  let context :=
    {| userId := userId; requestId := requestId; timestamp := env_now env;
       originalInput := input; redactedInput := Some redactedInput;
       riskLevel := Some level; riskCategory := Some category;
       modelVersion := Some modelVersion; modelParams := Some modelParams;
       output := None; guardrailDecision := None;
       justification := Some justification |} in
  if blockHighRisk policies && is_high level then
    let context := {| userId := userId; requestId := requestId; timestamp := env_now env;
       originalInput := input; redactedInput := Some redactedInput;
       riskLevel := Some level; riskCategory := Some category;
       modelVersion := Some modelVersion; modelParams := Some modelParams;
       output := None; guardrailDecision := Some BLOCKED;
       justification := Some justification |} in
    (mkRequestResult context false (Some "Request blocked due to High Risk policy.") None,
     log context t)
  else if is_high level && negb (approved approvalGranted) then
    (mkRequestResult context false None (Some true), t)
  else (mkRequestResult context true None None, t).

(** Setters for the in-place updates of the context object. *)
Definition set_output (c : GovernanceContext) (o : option GenerateContentResponse) :=
  {| userId := userId c; requestId := requestId c; timestamp := timestamp c;
     originalInput := originalInput c; redactedInput := redactedInput c;
     riskLevel := riskLevel c; riskCategory := riskCategory c;
     modelVersion := modelVersion c; modelParams := modelParams c;
     output := o; guardrailDecision := guardrailDecision c;
     justification := justification c |}.

Definition set_decision (c : GovernanceContext) (d : option Decision) :=
  {| userId := userId c; requestId := requestId c; timestamp := timestamp c;
     originalInput := originalInput c; redactedInput := redactedInput c;
     riskLevel := riskLevel c; riskCategory := riskCategory c;
     modelVersion := modelVersion c; modelParams := modelParams c;
     output := output c; guardrailDecision := d;
     justification := justification c |}.

Definition set_justification (c : GovernanceContext) (j : option string) :=
  {| userId := userId c; requestId := requestId c; timestamp := timestamp c;
     originalInput := originalInput c; redactedInput := redactedInput c;
     riskLevel := riskLevel c; riskCategory := riskCategory c;
     modelVersion := modelVersion c; modelParams := modelParams c;
     output := output c; guardrailDecision := guardrailDecision c;
     justification := j |}.

(** Outcome of [interceptResponse]: its return value, or the [TypeError]
    thrown by [parts[0].text] on an empty [parts] array. *)
Inductive ResponseOutcome : Type :=
| Returned (response : GenerateContentResponse) (proceed : bool) (error : option string)
| Threw (err : string).

Definition newline : string := String (ascii_of_nat 10) EmptyString.

(** [`${context.riskCategory}`] *)
Definition show_opt (o : option string) : string :=
  match o with Some s => s | None => "undefined" end.

Definition warning (riskCategory : option string) : string :=
  String.append newline (String.append newline (String.append
    "[GOVERNANCE WARNING: This output was flagged for human review due to High Risk category: "
    (String.append (show_opt riskCategory) (String.append "]"
      (String.append newline newline))))).

(** The FLAGGED_FOR_REVIEW rewrite of [response.candidates[0].content.parts]:
    [Some] the rewritten response, [None] when [parts[0]] is undefined. *)
Definition add_warning (riskCategory : option string) (response : GenerateContentResponse)
  : option GenerateContentResponse :=
  match candidates response with
  | Some (cand :: cands) =>
      match content cand with
      | Some ct =>
          match parts ct with
          | Some [] => None
          | Some (p0 :: ps) =>
              let w := warning riskCategory in
              let ps' := match truthy (text p0) with
                         | Some t0 => mkPart (Some (String.append w t0)) (payload p0) :: ps
                         | None => mkPart (Some w) None :: p0 :: ps
                         end in
              Some (mkResponse (Some (mkCandidate (Some (mkContent (Some ps'))) :: cands)))
          | None => Some response
          end
      | None => Some response
      end
  | _ => Some response
  end.

Definition level_or_low (o : option RiskLevel) : RiskLevel :=
  match o with Some l => l | None => LOW end.

(** [interceptResponse]: returns the context after its in-place updates
    (its [output] aliases the possibly rewritten response), the outcome and
    the audit trail. *)
Definition interceptResponse (context : GovernanceContext)
  (response : GenerateContentResponse) (t : trail)
  : GovernanceContext * ResponseOutcome * trail :=
  let context := set_output context (Some response) in
  let '(decision, reason) :=
    OutputGuardrail.validate response (level_or_low (riskLevel context)) in
  let context := set_decision context (Some decision) in
  let context :=
    match reason with
    | Some r =>
        set_justification context
          (Some (String.append
                   (match truthy (justification context) with
                    | Some j => String.append j "; "
                    | None => EmptyString end) r))
    | None => context
    end in
  let t := log context t in
  match decision with
  | BLOCKED =>
      (context, Returned response false
                  (Some (String.append "Output blocked: " (show_opt reason))), t)
  | FLAGGED_FOR_REVIEW =>
      match add_warning (riskCategory context) response with
      | Some response' => (set_output context (Some response'), Returned response' true None, t)
      | None => (context, Threw "TypeError", t)
      end
  | APPROVED => (context, Returned response true None, t)
  end.

End GovernanceEngine.

(** ** [interactive.ts] *)

Module Interactive.
Import Types.

(** [confirmHighRiskAction]: [isTTY] is the truthiness of
    [process.stdin.isTTY] and [answer] the line that [rl.question] reads.
    The messages printed and the five-second pause of a non-interactive
    session are not modelled; the promise resolves to the result. *)
Definition confirmHighRiskAction (isTTY : bool) (answer : string) : bool :=
  if negb isTTY then true
  else
    let a := string_of_list_ascii (RiskClassifier.toLowerCase (list_ascii_of_string answer)) in
    String.eqb a "y" || String.eqb a "yes".

End Interactive.

(** ** The engine's callers in [GeminiClient] ([sendMessageStream] and the
    [apiCall] of [generateContent]) *)

Module Client.
Import Types AuditLogger GovernanceEngine.

(** The string values of the [RiskLevel] enum. *)
Definition level_string (l : RiskLevel) : string :=
  match l with LOW => "LOW" | MEDIUM => "MEDIUM" | HIGH => "HIGH" | CRITICAL => "CRITICAL" end.

(** [x || 'default'] on an optional string. *)
Definition or_default (o : option string) (d : string) : string :=
  match truthy o with Some s => s | None => d end.

(** The events [sendMessageStream] yields before it runs the turn. *)
Inductive StreamEvent : Type :=
| GovernanceConfirmationNeeded (riskLevel riskCategory justification : string)
| ContentEvent (value : string)
| FinishedEvent.

(** [safeRequest]: the caller's [request], or the redacted parts. *)
Inductive SafeRequest : Type :=
| OriginalRequest
| RedactedRequest (ps : list Part).

(** Where the governance block of [sendMessageStream] leaves the
    generator: returning after some events, or running the turn on
    [safeRequest]. *)
Inductive GateOutcome : Type :=
| GateReturn (events : list StreamEvent)
| GateRun (safeRequest : SafeRequest).

(** The governance block of [sendMessageStream], from the call of
    [interceptRequest] to the choice of [safeRequest]; [parts] is
    [toParts(requestParts)]. *)
Definition stream_gate (policies : IPolicies) (env : Env) (parts : list Part)
  (modelToUse prompt_id : string) (governanceApproval : bool) (t : trail)
  : GateOutcome * trail :=
  let '(governanceResult, t) :=
    interceptRequest policies env parts modelToUse [("prompt_id", prompt_id)]
      (Some governanceApproval) t in
  let context := rq_context governanceResult in
  match rq_requiresApproval governanceResult with
  | Some true =>
      (GateReturn [GovernanceConfirmationNeeded
         (match riskLevel context with Some l => level_string l | None => "UNKNOWN" end)
         (or_default (riskCategory context) "Unknown Category")
         (or_default (justification context) "High Risk Detected")], t)
  | _ =>
      if negb (rq_proceed governanceResult) then
        (GateReturn [ContentEvent (String.append newline (String.append newline
            (String.append "[GOVERNANCE BLOCK]: "
              (String.append (show_opt (rq_error governanceResult)) newline))));
          FinishedEvent], t)
      else
        (GateRun (match redactedInput context with
                  | Some ps => RedactedRequest ps
                  | None => OriginalRequest end), t)
  end.

(** [contents.flatMap(c => c.parts || [])] *)
Definition flat_parts (contents : list Content) : list Part :=
  flat_map (fun c => match parts c with Some ps => ps | None => [] end) contents.

(** The value of [apiCall] in [generateContent]: the response, or the
    message of the [Error] it throws. *)
Inductive ApiOutcome : Type :=
| ApiReturned (response : GenerateContentResponse)
| ApiThrew (message : string).

(** [apiCall] with its governance steps; [generateContent] stands for the
    content generator's answer to the contents it is sent, and the object
    [{ modelConfigKey }] is kept opaque, as [Params] are.  The result also
    records the contents sent to the model ([None]: it was not called). *)
Definition apiCall (policies : IPolicies) (env : Env) (contents : list Content)
  (currentAttemptModel modelConfigKey : string)
  (generateContent : list Content -> GenerateContentResponse) (t : trail)
  : ApiOutcome * option (list Content) * trail :=
  let '(governanceReq, t) :=
    interceptRequest policies env (flat_parts contents) currentAttemptModel
      [("modelConfigKey", modelConfigKey)] None t in
  if negb (rq_proceed governanceReq) then
    (ApiThrew (String.append "Governance Block: " (show_opt (rq_error governanceReq))), None, t)
  else
    let response := generateContent contents in
    let '(_, governanceRes, t) := interceptResponse (rq_context governanceReq) response t in
    match governanceRes with
    | Returned r true _ => (ApiReturned r, Some contents, t)
    | Returned _ false err =>
        (ApiThrew (String.append "Governance Output Block: " (show_opt err)), Some contents, t)
    | Threw e => (ApiThrew e, Some contents, t)
    end.

End Client.

(** ** The earlier [GovernanceEngine] (without [approvalGranted]) *)

Module GovernanceEngineV1.
Import Regex Types AuditLogger GovernanceEngine.

Record RequestResultV1 : Type := mkRequestResultV1 {
  v1_context : GovernanceContext;
  v1_proceed : bool;
  v1_error : option string }.

(** [interceptRequest] of this version: no human-in-the-loop check. *)
Definition interceptRequest (policies : IPolicies) (env : Env)
  (input : list Part) (modelVersion : string) (modelParams : Params) (t : trail)
  : RequestResultV1 * trail :=
  let requestId := env_uuid env in
  let userId := match truthy (env_USER env) with Some u => u | None => "unknown_user" end in
  let '(redactedInput, justification) :=
    if piiRedaction policies then
      let result := PIIFilter.redact input in
      (PIIFilter.redactedParts result,
       if PIIFilter.wasRedacted result
       then String.append "PII Redacted: " (join_str ", " (PIIFilter.justifications result))
       else EmptyString)
    else (input, EmptyString) in
  let '(level, category) := RiskClassifier.classify redactedInput in
  let context :=
    {| userId := userId; requestId := requestId; timestamp := env_now env;
       originalInput := input; redactedInput := Some redactedInput;
       riskLevel := Some level; riskCategory := Some category;
       modelVersion := Some modelVersion; modelParams := Some modelParams;
       output := None; guardrailDecision := None;
       justification := Some justification |} in
  if blockHighRisk policies && is_high level then
    let context := {| userId := userId; requestId := requestId; timestamp := env_now env;
       originalInput := input; redactedInput := Some redactedInput;
       riskLevel := Some level; riskCategory := Some category;
       modelVersion := Some modelVersion; modelParams := Some modelParams;
       output := None; guardrailDecision := Some BLOCKED;
       justification := Some justification |} in
    (mkRequestResultV1 context false (Some "Request blocked due to High Risk policy."),
     log context t)
  else (mkRequestResultV1 context true None, t).

Record ResponseResultV1 : Type := mkResponseResultV1 {
  v1_response : GenerateContentResponse;
  v1_rproceed : bool;
  v1_rerror : option string;
  v1_decision : option string }.

(** [interceptResponse] of this version: the response is returned as it
    came, with the decision as a field. *)
Definition interceptResponse (context : GovernanceContext)
  (response : GenerateContentResponse) (t : trail)
  : GovernanceContext * ResponseResultV1 * trail :=
  let context := set_output context (Some response) in
  let '(decision, reason) :=
    OutputGuardrail.validate response (level_or_low (riskLevel context)) in
  let context := set_decision context (Some decision) in
  let context :=
    match reason with
    | Some r =>
        set_justification context
          (Some (String.append
                   (match truthy (justification context) with
                    | Some j => String.append j "; "
                    | None => EmptyString end) r))
    | None => context
    end in
  let t := log context t in
  match decision with
  | BLOCKED =>
      (context, mkResponseResultV1 response false
                  (Some (String.append "Output blocked: " (show_opt reason))) None, t)
  | FLAGGED_FOR_REVIEW =>
      (context, mkResponseResultV1 response true (Some "Output flagged for review")
                  (Some "FLAGGED_FOR_REVIEW"), t)
  | APPROVED => (context, mkResponseResultV1 response true None (Some "APPROVED"), t)
  end.

End GovernanceEngineV1.

(** * Proofs *)

(** ** The matcher against its relational semantics *)

Module RegexFacts.
Import Regex.

Lemma last_opt_app w1 w2 p : last_opt (w1 ++ w2) p = last_opt w2 (last_opt w1 p).
Proof. revert p; induction w1 as [|x w1 IH]; intros p; simpl; auto. Qed.

Lemma run_len_le f s : run_len f s <= List.length s.
Proof. induction s as [|x s IH]; simpl; [lia|]. destruct (f x); simpl; lia. Qed.

Lemma run_len_firstn f s j : j <= run_len f s -> forallb f (firstn j s) = true.
Proof.
  revert j; induction s as [|x s IH]; intros j Hj; simpl in *.
  - destruct j; reflexivity.
  - destruct (f x) eqn:E.
    + destruct j as [|j]; simpl; [reflexivity|]. rewrite E; simpl. apply IH; lia.
    + assert (j = 0) by lia; subst; reflexivity.
Qed.

Lemma run_len_app f w r : forallb f w = true -> List.length w <= run_len f (w ++ r).
Proof.
  induction w as [|x w IH]; simpl; intros H; [lia|].
  apply andb_prop in H as [H1 H2]. rewrite H1. specialize (IH H2). lia.
Qed.

Lemma firstn_app_len (w r : list ascii) : firstn (List.length w) (w ++ r) = w.
Proof. induction w as [|x w IH]; simpl; congruence. Qed.

Lemma skipn_app_len (w r : list ascii) : skipn (List.length w) (w ++ r) = r.
Proof. induction w as [|x w IH]; simpl; auto. Qed.

Lemma try_down_sound mn n c k res :
  try_down mn n c k = Some res -> exists j, mn <= j <= n /\ k (advance c j) = Some res.
Proof.
  induction n as [|n IH]; simpl; intros H.
  - destruct (Nat.ltb 0 mn) eqn:E; [discriminate|]. apply Nat.ltb_ge in E.
    destruct (k (advance c 0)) eqn:K; [|discriminate]. injection H as <-.
    exists 0; split; [lia|auto].
  - destruct (Nat.ltb (S n) mn) eqn:E; [discriminate|]. apply Nat.ltb_ge in E.
    destruct (k (advance c (S n))) eqn:K.
    + injection H as <-. exists (S n); split; [lia|auto].
    + destruct (IH H) as [j [Hj Hk]]. exists j; split; [lia|auto].
Qed.

Lemma try_down_none mn n c k :
  try_down mn n c k = None -> forall j, mn <= j -> j <= n -> k (advance c j) = None.
Proof.
  induction n as [|n IH]; simpl; intros H j H1 H2.
  - assert (j = 0) by lia; subst.
    destruct (Nat.ltb 0 mn) eqn:E; [apply Nat.ltb_lt in E; lia|].
    destruct (k (advance c 0)); [discriminate|reflexivity].
  - destruct (Nat.ltb (S n) mn) eqn:E; [apply Nat.ltb_lt in E; lia|].
    destruct (k (advance c (S n))) eqn:K; [discriminate|].
    destruct (Nat.eq_dec j (S n)) as [->|Hne]; [exact K|].
    apply IH; auto; lia.
Qed.

Lemma mtch_sound r : forall p s k res, mtch r (p, s) k = Some res ->
  exists w rest, s = w ++ rest /\ M r p w rest /\ k (last_opt w p, rest) = Some res.
Proof.
  induction r as [|f|r1 IH1 r2 IH2|f mn mx|]; intros p s k res H; simpl in H.
  - exists [], s. split; [reflexivity|]. split; [constructor|exact H].
  - destruct s as [|x t]; [discriminate|]. destruct (f x) eqn:E; [|discriminate].
    exists [x], t. split; [reflexivity|]. split; [constructor; exact E|exact H].
  - apply IH1 in H as [w1 [rest1 [-> [HM1 H2]]]].
    apply IH2 in H2 as [w2 [rest2 [-> [HM2 Hk]]]].
    exists (w1 ++ w2), rest2. rewrite app_assoc. split; [reflexivity|].
    split; [constructor; auto|]. rewrite last_opt_app; exact Hk.
  - apply try_down_sound in H as [j [Hj Hk]].
    unfold advance in Hk; simpl in Hk.
    pose proof (run_len_le f s) as Hl.
    assert (Hle : j <= run_len f s) by (destruct mx; simpl in Hj; lia).
    exists (firstn j s), (skipn j s). rewrite firstn_skipn. split; [reflexivity|].
    split; [|exact Hk].
    constructor.
    + apply run_len_firstn; exact Hle.
    + rewrite length_firstn. lia.
    + destruct mx; simpl in *; auto. rewrite length_firstn. lia.
  - destruct (at_boundary p s) eqn:E; [|discriminate].
    exists [], s. split; [reflexivity|]. split; [constructor; exact E|exact H].
Qed.

Lemma mtch_complete r p w rest : M r p w rest ->
  forall k, k (last_opt w p, rest) <> None -> mtch r (p, w ++ rest) k <> None.
Proof.
  induction 1 as [p rest|f p x rest Hf|r1 r2 p w1 w2 rest HM1 IH1 HM2 IH2
                 |f mn mx p w rest Hf Hmn Hmx|p rest Hb]; intros k Hk; simpl.
  - exact Hk.
  - rewrite Hf. exact Hk.
  - rewrite <- app_assoc. apply IH1. simpl. apply IH2.
    rewrite <- last_opt_app. exact Hk.
  - intro H. apply Hk.
    assert (Hle : List.length w <= cap mx (run_len f (w ++ rest))).
    { pose proof (run_len_app f w rest Hf). destruct mx; simpl in *; lia. }
    pose proof (try_down_none _ _ _ _ H (List.length w) Hmn Hle) as Hn.
    unfold advance in Hn; simpl in Hn.
    rewrite firstn_app_len, skipn_app_len in Hn. exact Hn.
  - rewrite Hb. exact Hk.
Qed.

Lemma exec_sound r p s p' rest : exec r p s = Some (p', rest) ->
  exists w, s = w ++ rest /\ M r p w rest /\ p' = last_opt w p.
Proof.
  unfold exec; intros H. apply mtch_sound in H as [w [rest0 [Hs [HM Hk]]]].
  injection Hk as <- <-. exists w; auto.
Qed.

Lemma exec_complete r p w rest : M r p w rest -> exec r p (w ++ rest) <> None.
Proof. intros HM. unfold exec. apply (mtch_complete _ _ _ _ HM). discriminate. Qed.

End RegexFacts.

(** ** General facts about matches *)

Module MatchFacts.
Import Regex RegexFacts.

Lemma M_seq_inv r1 r2 p w rest : M (RSeq r1 r2) p w rest ->
  exists w1 w2, w = w1 ++ w2 /\ M r1 p w1 (w2 ++ rest) /\ M r2 (last_opt w1 p) w2 rest.
Proof. intros H; inversion H; subst; eauto. Qed.

Lemma M_eps_inv p w rest : M REps p w rest -> w = [].
Proof. intros H; inversion H; auto. Qed.

Lemma M_char_inv f p w rest : M (RChar f) p w rest -> exists x, w = [x] /\ f x = true.
Proof. intros H; inversion H; subst; eauto. Qed.

Lemma M_rep_inv f mn mx p w rest : M (RRep f mn mx) p w rest ->
  forallb f w = true /\ mn <= List.length w /\ within mx (List.length w).
Proof. intros H; inversion H; subst; auto. Qed.

Lemma M_bnd_inv p w rest : M RBnd p w rest -> w = [] /\ at_boundary p rest = true.
Proof. intros H; inversion H; subst; auto. Qed.

Ltac minv :=
  repeat match goal with
  | H : M (RSeq _ _) _ _ _ |- _ =>
      let w1 := fresh "w" in let w2 := fresh "w" in
      let E := fresh "E" in let H1 := fresh "Hm" in let H2 := fresh "Hm" in
      apply M_seq_inv in H as (w1 & w2 & E & H1 & H2); subst
  | H : M REps _ _ _ |- _ => apply M_eps_inv in H; subst
  | H : M (RChar _) _ _ _ |- _ =>
      let x := fresh "x" in let E := fresh "E" in let F := fresh "Hf" in
      apply M_char_inv in H as (x & E & F); subst
  | H : M (RRep _ _ _) _ _ _ |- _ =>
      let F := fresh "Hf" in let L1 := fresh "Hl" in let L2 := fresh "Hl" in
      apply M_rep_inv in H as (F & L1 & L2)
  | H : M RBnd _ _ _ |- _ =>
      let E := fresh "E" in let B := fresh "Hb" in
      apply M_bnd_inv in H as (E & B); subst
  end.

Lemma word_hd_app (w r r' : list ascii) :
  word_opt (hd_error r) = word_opt (hd_error r') ->
  word_opt (hd_error (w ++ r)) = word_opt (hd_error (w ++ r')).
Proof. destruct w; simpl; auto. Qed.

Lemma word_last_opt w p p' :
  word_opt p = word_opt p' -> word_opt (last_opt w p) = word_opt (last_opt w p').
Proof. destruct w as [|x w]; simpl; auto. Qed.

(** A match depends on what follows only through the word-ness of the next
    character. *)
Lemma M_rest r p w rest rest' : M r p w rest ->
  word_opt (hd_error rest) = word_opt (hd_error rest') -> M r p w rest'.
Proof.
  intros H; revert rest'; induction H; intros rest' E; try (constructor; auto; fail).
  - constructor; [apply IHM1; apply word_hd_app; exact E|apply IHM2; exact E].
  - constructor. unfold at_boundary in *. rewrite <- E. exact H.
Qed.

(** ... and on what precedes only through the word-ness of that character. *)
Lemma M_prev r p p' w rest : M r p w rest -> word_opt p = word_opt p' -> M r p' w rest.
Proof.
  intros H; revert p'; induction H; intros p' E; try (constructor; auto; fail).
  - constructor; [apply IHM1; exact E|apply IHM2; apply word_last_opt; exact E].
  - constructor. unfold at_boundary in *. rewrite <- E. exact H.
Qed.

Lemma M_bnd_free r p w rest : M r p w rest -> bnd_free r = true ->
  forall p' rest', M r p' w rest'.
Proof.
  induction 1; simpl; intros Hb p' rest'; try (constructor; auto; fail).
  - apply andb_prop in Hb as [H1 H2]. constructor; auto.
  - discriminate.
Qed.

Lemma forallb_or_l f g (w : list ascii) :
  forallb f w = true -> forallb (fun c => f c || g c) w = true.
Proof.
  induction w as [|x w IH]; simpl; auto. intros H; apply andb_prop in H as [H1 H2].
  rewrite H1, IH; auto.
Qed.

Lemma forallb_or_r f g (w : list ascii) :
  forallb g w = true -> forallb (fun c => f c || g c) w = true.
Proof.
  induction w as [|x w IH]; simpl; auto. intros H; apply andb_prop in H as [H1 H2].
  rewrite H1, IH, orb_true_r; auto.
Qed.

(** Every character of a match is one the regex can consume. *)
Lemma M_chars r p w rest : M r p w rest -> forallb (re_chars r) w = true.
Proof.
  induction 1; simpl; auto.
  - rewrite H; reflexivity.
  - rewrite forallb_app. rewrite (forallb_or_l _ _ _ IHM1), (forallb_or_r _ _ _ IHM2).
    reflexivity.
Qed.

Lemma forallb_not_in (f : ascii -> bool) b w : forallb f w = true -> f b = false -> ~ In b w.
Proof.
  intros H Hb Hin. rewrite forallb_forall in H. rewrite (H b Hin) in Hb. discriminate.
Qed.

(** A word without the character [b], in front of [b]: it ends before it. *)
Lemma prefix_before (b : ascii) w r G Y :
  ~ In b w -> w ++ r = G ++ b :: Y -> exists G2, G = w ++ G2 /\ r = G2 ++ b :: Y.
Proof.
  revert G; induction w as [|x w IH]; intros G Hn E; simpl in *.
  - exists G; auto.
  - destruct G as [|y G]; simpl in E; injection E as E1 E2.
    + subst. exfalso; apply Hn; auto.
    + subst y. destruct (IH G (fun h => Hn (or_intror h)) E2) as [G2 [-> ->]].
      exists G2; auto.
Qed.

Lemma has_match_app r p w rest :
  has_match r p (w ++ rest) = false -> has_match r (last_opt w p) rest = false.
Proof.
  revert p; induction w as [|x w IH]; intros p H; simpl in *; auto.
  apply orb_false_iff in H as [_ H]. apply IH; exact H.
Qed.

End MatchFacts.

(** ** The global replace scan *)

Module ScanFacts.
Import Regex RegexFacts MatchFacts.

Lemma has_match_prefix r ph :
  (forall i p Z, i < List.length ph -> exec r p (skipn i ph ++ Z) = None) ->
  forall p Y, has_match r p (ph ++ Y) = has_match r (last_opt ph p) Y.
Proof.
  induction ph as [|x ph IH]; intros H p Y; [reflexivity|].
  cbn [app has_match last_opt].
  pose proof (H 0 p Y ltac:(simpl; lia)) as H0. simpl in H0. rewrite H0. simpl.
  apply IH. intros i q Z Hi. apply (H (S i)). simpl; lia.
Qed.

Section Scan.
Variables (rk : re) (ph : list ascii).
Hypothesis Hk_ne : forall p w r, M rk p w r -> w <> [].

Lemma exec_progress p s p' rest : exec rk p s = Some (p', rest) ->
  exists w, s = w ++ rest /\ M rk p w rest /\ p' = last_opt w p /\
            Nat.ltb (List.length rest) (List.length s) = true.
Proof.
  intros H. apply exec_sound in H as [w [Hs [HM Hp]]]. exists w.
  split; [exact Hs|]. split; [exact HM|]. split; [exact Hp|].
  apply Nat.ltb_lt. rewrite Hs, length_app.
  destruct w as [|x w]; [exfalso; eapply Hk_ne; eauto|simpl; lia].
Qed.

Lemma replace_go_shape f : forall p s,
  replace_go rk ph f p s = s \/
  exists g m R Z, s = g ++ m ++ R /\ M rk (last_opt g p) m R /\
                  replace_go rk ph f p s = g ++ ph ++ Z.
Proof.
  induction f as [|f IH]; intros p s; cbn [replace_go]; [left; reflexivity|].
  destruct (exec rk p s) as [[p' rest]|] eqn:E.
  - destruct (exec_progress _ _ _ _ E) as [w [Hs [HM [Hp Hlt]]]]. rewrite Hlt.
    right. exists [], w, rest, (replace_go rk ph f p' rest). simpl.
    split; [exact Hs|]. split; [exact HM|reflexivity].
  - destruct s as [|c t]; [left; reflexivity|].
    destruct (IH (Some c) t) as [Eq | (g & m & R & Z & Ht & HM & Eq)]; rewrite Eq.
    + left; reflexivity.
    + right. exists (c :: g), m, R, Z. subst t. simpl.
      split; [reflexivity|]. split; [exact HM|reflexivity].
Qed.

Lemma replace_go_nomatch f : forall p s,
  has_match rk p s = false -> replace_go rk ph f p s = s.
Proof.
  induction f as [|f IH]; intros p s H; cbn [replace_go]; [reflexivity|].
  destruct s as [|c t].
  - cbn [has_match] in H. destruct (exec rk p []); [discriminate|reflexivity].
  - cbn [has_match] in H. apply orb_false_iff in H as [H1 H2].
    destruct (exec rk p (c :: t)); [discriminate|]. rewrite IH; auto.
Qed.

Lemma scan_gaps_self f : forall p s,
  scan_gaps rk (fun p s => exec rk p s = None) f p s.
Proof.
  induction f as [|f IH]; intros p s; cbn [scan_gaps]; [exact I|].
  destruct (exec rk p s) as [[p' rest]|] eqn:E.
  - destruct (Nat.ltb _ _); auto.
  - split; [reflexivity|]. destruct s; auto.
Qed.

Lemma scan_gaps_nomatch rj f : forall p s,
  has_match rj p s = false -> scan_gaps rk (fun p s => exec rj p s = None) f p s.
Proof.
  induction f as [|f IH]; intros p s H; cbn [scan_gaps]; [exact I|].
  destruct (exec rk p s) as [[p' rest]|] eqn:E.
  - destruct (exec_progress _ _ _ _ E) as [w [Hs [HM [Hp Hlt]]]]. rewrite Hlt.
    apply IH. subst. apply has_match_app; exact H.
  - destruct s as [|c t]; cbn [has_match] in H.
    + split; [|exact I]. destruct (exec rj p []); [discriminate|reflexivity].
    + apply orb_false_iff in H as [H1 H2]. split.
      * destruct (exec rj p (c :: t)); [discriminate|reflexivity].
      * apply IH; exact H2.
Qed.

(** Replacing never removes a character [b] that no match contains, and
    adds at least one when a match is found. *)
Lemma count_replace (b : ascii) f : forall p s,
  (forall p w r, M rk p w r -> ~ In b w) ->
  count_char b s <= count_char b (replace_go rk ph f p s) /\
  (has_match rk p s = true -> List.length s < f -> 0 < count_char b ph ->
   count_char b s < count_char b (replace_go rk ph f p s)).
Proof.
  unfold count_char.
  induction f as [|f IH]; intros p s Hb; cbn [replace_go].
  - split; [lia|]. intros _ H; lia.
  - destruct (exec rk p s) as [[p' rest]|] eqn:E.
    + destruct (exec_progress _ _ _ _ E) as [w [Hs [HM [Hp Hlt]]]]. rewrite Hlt.
      assert (Hw : filter (Ascii.eqb b) w = []).
      { pose proof (Hb _ _ _ HM) as Hn. clear -Hn. induction w as [|x w IHw]; auto.
        simpl. destruct (Ascii.eqb b x) eqn:Ex.
        - apply Ascii.eqb_eq in Ex; subst. exfalso; apply Hn; left; auto.
        - apply IHw. intros h; apply Hn; right; exact h. }
      destruct (IH p' rest Hb) as [IH1 _].
      rewrite Hs, filter_app, length_app, Hw, filter_app, length_app. simpl.
      split; [lia|]. intros _ _ Hph. lia.
    + destruct s as [|c t].
      * split; [lia|]. intros H. cbn [has_match] in H. rewrite E in H. discriminate.
      * destruct (IH (Some c) t Hb) as [IH1 IH2]. simpl.
        split; [destruct (Ascii.eqb b c); simpl; lia|].
        intros H Hl Hph. cbn [has_match] in H. rewrite E in H. simpl in H, Hl.
        specialize (IH2 H ltac:(lia) Hph). destruct (Ascii.eqb b c); simpl; lia.
Qed.

End Scan.

Section Preserve.
(** A match of [rj] created by the replacement of the matches of [rk]. *)
Variables (rj rk : re) (ph : list ascii).
Variable Rel : option ascii -> option ascii -> list ascii -> Prop.
Hypothesis Hk_ne : forall p w r, M rk p w r -> w <> [].
Hypothesis Hph : forall i p Z, i < List.length ph -> exec rj p (skipn i ph ++ Z) = None.
Hypothesis Hj_nil : forall p, exec rj p [] = None.
Hypothesis Hwin : forall po G m R Z, G <> [] -> M rk (last_opt G po) m R ->
  exec rj po (G ++ m ++ R) = None -> exec rj po (G ++ ph ++ Z) = None.
Hypothesis Hrefl : forall p s, Rel p p s.
Hypothesis Hafter : forall p q m R, M rk p m R -> Rel (last_opt ph q) (last_opt m p) R.
Hypothesis Huse : forall pr po c t X,
  Rel pr po (c :: t) -> exec rj po (c :: X) = None -> exec rj pr (c :: X) = None.

Lemma replace_no_match f : forall po pr s, List.length s < f ->
  scan_gaps rk (fun p s => exec rj p s = None) f po s -> Rel pr po s ->
  has_match rj pr (replace_go rk ph f po s) = false.
Proof.
  induction f as [|f IH]; intros po pr s Hlen Hg HR; [lia|].
  cbn [replace_go scan_gaps] in Hg |- *.
  destruct (exec rk po s) as [[p' rest]|] eqn:E.
  - destruct (exec_progress rk Hk_ne _ _ _ _ E) as [w [Hs [HM [Hp Hlt]]]].
    rewrite Hlt in Hg |- *.
    rewrite (has_match_prefix rj ph Hph). apply IH; auto.
    + apply Nat.ltb_lt in Hlt. lia.
    + subst p'. apply Hafter; exact HM.
  - destruct Hg as [Hok Hg]. destruct s as [|c t].
    + cbn [has_match]. rewrite Hj_nil. reflexivity.
    + cbn [has_match]. apply orb_false_iff; split.
      * assert (Hn : exec rj pr (c :: replace_go rk ph f (Some c) t) = None).
        { destruct (replace_go_shape rk ph Hk_ne f (Some c) t)
            as [Eq | (g & m & R & Z & Ht & HM & Eq)]; rewrite Eq.
          - eapply Huse; eauto.
          - eapply Huse; [exact HR|].
            apply (Hwin po (c :: g) m R Z); [discriminate|exact HM|].
            subst t. exact Hok. }
        rewrite Hn; reflexivity.
      * apply IH; auto. simpl in Hlen; lia.
Qed.

Lemma replace_all_no_match s :
  scan_gaps rk (fun p s => exec rj p s = None) (S (List.length s)) None s ->
  has_match rj None (replace_all rk ph s) = false.
Proof. intros H. unfold replace_all. apply replace_no_match; auto. Qed.

End Preserve.

End ScanFacts.

(** ** Soundness of the regex analyses *)

Module AnalysisFacts.
Import Regex RegexFacts MatchFacts.

Lemma in_all_ascii c : In c all_ascii.
Proof.
  unfold all_ascii. apply in_map_iff. exists (nat_of_ascii c). split.
  - apply ascii_nat_embedding.
  - apply in_seq. pose proof (nat_ascii_bounded c). lia.
Qed.

Lemma implies_sound f g c : implies f g = true -> f c = true -> g c = true.
Proof.
  unfold implies. intros H Hf. rewrite forallb_forall in H.
  specialize (H c (in_all_ascii c)). rewrite Hf in H. exact H.
Qed.

Lemma forallb_first f (x : ascii) w : forallb f (x :: w) = true -> f x = true.
Proof. simpl; intros H; apply andb_prop in H; tauto. Qed.

Lemma forallb_last f (w : list ascii) : forallb f w = true -> w <> [] ->
  exists w' x, w = w' ++ [x] /\ f x = true.
Proof.
  intros H Hn. destruct (exists_last Hn) as [w' [x ->]]. exists w', x. split; auto.
  rewrite forallb_app in H. apply andb_prop in H as [_ H]. simpl in H.
  rewrite andb_true_r in H. exact H.
Qed.

Lemma empty_only_sound r p w rest : M r p w rest -> empty_only r = true -> w = [].
Proof.
  induction 1; simpl; intros He; auto; try discriminate.
  - apply andb_prop in He as [H1 H2]. rewrite IHM1, IHM2; auto.
  - destruct mx as [[|m]|]; try discriminate. simpl in H1.
    destruct w; [reflexivity|simpl in H1; lia].
Qed.

Lemma non_empty_sound r p w rest : M r p w rest -> non_empty r = true -> w <> [].
Proof.
  induction 1; simpl; intros Hn; try discriminate.
  - apply orb_prop in Hn as [Hn|Hn].
    + destruct w1; [exfalso; apply IHM1; auto|discriminate].
    + destruct w1; simpl; [apply IHM2; auto|discriminate].
  - apply Nat.ltb_lt in Hn. destruct w; [simpl in H0; lia|discriminate].
Qed.

Lemma starts_w_sound r p w rest : M r p w rest -> starts_w r = true ->
  exists x w', w = x :: w' /\ is_word x = true.
Proof.
  induction 1; simpl; intros Hs; try discriminate.
  - exists x, []. split; auto. eapply implies_sound; eauto.
  - apply orb_prop in Hs as [Hs|Hs].
    + destruct (IHM1 Hs) as [x [w' [-> Hx]]]. exists x, (w' ++ w2); auto.
    + apply andb_prop in Hs as [He Hs].
      rewrite (empty_only_sound _ _ _ _ H He). simpl. apply IHM2; exact Hs.
  - apply andb_prop in Hs as [Hl Hi]. apply Nat.ltb_lt in Hl.
    destruct w as [|x w']; [simpl in H0; lia|]. exists x, w'. split; auto.
    eapply implies_sound; [exact Hi|]. eapply forallb_first; eauto.
Qed.

Lemma ends_w_sound r p w rest : M r p w rest -> ends_w r = true ->
  exists w' x, w = w' ++ [x] /\ is_word x = true.
Proof.
  induction 1; simpl; intros Hs; try discriminate.
  - exists [], x. split; auto. eapply implies_sound; eauto.
  - apply orb_prop in Hs as [Hs|Hs].
    + destruct (IHM2 Hs) as [w' [x [-> Hx]]]. exists (w1 ++ w'), x.
      rewrite app_assoc; auto.
    + apply andb_prop in Hs as [He Hs].
      rewrite (empty_only_sound _ _ _ _ H0 He), app_nil_r. apply IHM1; exact Hs.
  - apply andb_prop in Hs as [Hl Hi]. apply Nat.ltb_lt in Hl.
    destruct (forallb_last _ _ H) as [w' [x [-> Hx]]].
    + intros ->; simpl in H0; lia.
    + exists w', x. split; auto. eapply implies_sound; eauto.
Qed.

Lemma bnd_start_sound r p w rest : M r p w rest -> bnd_start r = true ->
  word_opt (hd_error (w ++ rest)) = true -> word_opt p = false.
Proof.
  induction 1; simpl; intros Hs Hw; try discriminate.
  - apply IHM1; auto. rewrite <- app_assoc in Hw; exact Hw.
  - unfold at_boundary in H. rewrite Hw in H. destruct (word_opt p); auto.
Qed.

Lemma bnd_end_sound r p w rest : M r p w rest -> bnd_end r = true ->
  word_opt (last_opt w p) = true -> word_opt (hd_error rest) = false.
Proof.
  induction 1; simpl; intros Hs Hw; try discriminate.
  - rewrite last_opt_app in Hw. apply orb_prop in Hs as [Hs|Hs].
    + apply IHM2; auto.
    + apply andb_prop in Hs as [He Hs].
      pose proof (empty_only_sound _ _ _ _ H0 He) as E. subst w2.
      apply IHM1; auto.
  - unfold at_boundary in H. rewrite Hw in H. destruct (word_opt (hd_error rest)); auto.
Qed.

Lemma word_bounded_sound r p w rest : M r p w rest -> word_bounded r = true ->
  exists x w', w = x :: w' /\ is_word x = true /\ word_opt p = false /\
    word_opt (last_opt w p) = true /\ word_opt (hd_error rest) = false.
Proof.
  intros HM Hb. unfold word_bounded in Hb.
  apply andb_prop in Hb as [Hb He]. apply andb_prop in Hb as [Hb Hst].
  apply andb_prop in Hb as [Hs Hen].
  destruct (starts_w_sound _ _ _ _ HM Hs) as [x [w' [Ew Hx]]].
  destruct (ends_w_sound _ _ _ _ HM Hen) as [v [y [Ev Hy]]].
  assert (Hl : word_opt (last_opt w p) = true).
  { rewrite Ev, last_opt_app. simpl. exact Hy. }
  exists x, w'. repeat split; auto.
  - apply (bnd_start_sound _ _ _ _ HM Hst). rewrite Ew. simpl. exact Hx.
  - apply (bnd_end_sound _ _ _ _ HM He Hl).
Qed.

Lemma has_key_sound r p w rest : M r p w rest -> has_key r = true ->
  exists c, In c w /\ keyc c = true.
Proof.
  induction 1; simpl; intros Hk; try discriminate.
  - exists x. split; [left; auto|]. eapply implies_sound; eauto.
  - apply orb_prop in Hk as [Hk|Hk].
    + destruct (IHM1 Hk) as [c [Hc Hkc]]. exists c. split; auto. apply in_or_app; auto.
    + destruct (IHM2 Hk) as [c [Hc Hkc]]. exists c. split; auto. apply in_or_app; auto.
  - apply andb_prop in Hk as [Hl Hi]. apply Nat.ltb_lt in Hl.
    destruct w as [|x w']; [simpl in H0; lia|]. exists x. split; [left; auto|].
    eapply implies_sound; [exact Hi|]. eapply forallb_first; eauto.
Qed.

End AnalysisFacts.

(** ** No match survives or appears through a replacement *)

Module NoRematch.
Import Regex RegexFacts MatchFacts ScanFacts AnalysisFacts.

Lemma exec_none_of r p s :
  (forall w rest, s = w ++ rest -> M r p w rest -> False) -> exec r p s = None.
Proof.
  intros H. destruct (exec r p s) as [[p' rest]|] eqn:E; auto.
  exfalso. apply exec_sound in E as [w [Hs [HM _]]]. eapply H; eauto.
Qed.

Lemma exec_nil r p : non_empty r = true -> exec r p [] = None.
Proof.
  intros Hn. apply exec_none_of. intros w rest Hs HM.
  destruct w; [|discriminate]. eapply non_empty_sound; eauto.
Qed.

Lemma exec_prev_free r p p' s : bnd_free r = true -> exec r p s = None -> exec r p' s = None.
Proof.
  intros Hb Hn. apply exec_none_of. intros w rest Hs HM.
  apply (exec_complete r p w rest (M_bnd_free _ _ _ _ HM Hb p rest)).
  rewrite <- Hs. exact Hn.
Qed.

Lemma in_skipn_in (c : ascii) i l : In c (skipn i l) -> In c l.
Proof. intros H. rewrite <- (firstn_skipn i l). apply in_or_app; right; exact H. Qed.

(** A match never lies inside a placeholder, started anywhere in it. *)
Lemma ph_safe rj B :
  has_key rj = true -> re_chars rj "]"%char = false ->
  forallb (fun c => negb (keyc c)) B = true ->
  forall i p Z, i < List.length (B ++ ["]"%char]) ->
  exec rj p (skipn i (B ++ ["]"%char]) ++ Z) = None.
Proof.
  intros Hk Hc HB i p Z Hi. apply exec_none_of. intros w rest Hs HM.
  rewrite length_app in Hi. simpl in Hi.
  assert (E : skipn i (B ++ ["]"%char]) = skipn i B ++ ["]"%char]).
  { rewrite skipn_app. replace (i - List.length B) with 0 by lia. reflexivity. }
  rewrite E, <- app_assoc in Hs. simpl in Hs.
  pose proof (forallb_not_in _ _ _ (M_chars _ _ _ _ HM) Hc) as Hn.
  destruct (prefix_before _ w rest _ _ Hn (eq_sym Hs)) as [G2 [EG _]].
  destruct (has_key_sound _ _ _ _ HM Hk) as [c [Hin Hkc]].
  assert (HB' : In c B).
  { apply (in_skipn_in c i). rewrite EG. apply in_or_app; left; exact Hin. }
  rewrite forallb_forall in HB. specialize (HB c HB'). rewrite Hkc in HB. discriminate.
Qed.

Lemma hwin_free rj rk Y : bnd_free rj = true -> re_chars rj "["%char = false ->
  forall po G m R Z, G <> [] -> M rk (last_opt G po) m R ->
  exec rj po (G ++ m ++ R) = None -> exec rj po (G ++ ("["%char :: Y) ++ Z) = None.
Proof.
  intros Hb Hc po G m R Z _ _ Hnone. apply exec_none_of. intros w rest Hs HM.
  simpl in Hs.
  pose proof (forallb_not_in _ _ _ (M_chars _ _ _ _ HM) Hc) as Hn.
  destruct (prefix_before _ w rest _ _ Hn (eq_sym Hs)) as [G2 [EG _]].
  apply (exec_complete rj po w (G2 ++ m ++ R) (M_bnd_free _ _ _ _ HM Hb po _)).
  rewrite <- Hnone. subst G. rewrite <- app_assoc. reflexivity.
Qed.

Lemma hwin_bnd rj rk Y : word_bounded rj = true -> word_bounded rk = true ->
  re_chars rj "["%char = false ->
  forall po G m R Z, G <> [] -> M rk (last_opt G po) m R ->
  exec rj po (G ++ m ++ R) = None -> exec rj po (G ++ ("["%char :: Y) ++ Z) = None.
Proof.
  intros Hbj Hbk Hc po G m R Z _ HMk Hnone. apply exec_none_of. intros w rest Hs HM.
  simpl in Hs.
  pose proof (forallb_not_in _ _ _ (M_chars _ _ _ _ HM) Hc) as Hn.
  destruct (prefix_before _ w rest _ _ Hn (eq_sym Hs)) as [G2 [EG Er]].
  subst G rest.
  assert (HM' : M rj po w (G2 ++ m ++ R)).
  { apply (M_rest _ _ _ _ _ HM). destruct G2 as [|g G2']; [|reflexivity].
    exfalso. rewrite app_nil_r in HMk.
    destruct (word_bounded_sound _ _ _ _ HMk Hbk) as (x1 & v1 & E1 & H1 & Hp & H2 & H3).
    destruct (word_bounded_sound _ _ _ _ HM Hbj) as (x2 & v2 & E2 & H4 & H5 & Hl & H6).
    congruence. }
  apply (exec_complete _ _ _ _ HM'). rewrite <- Hnone, <- app_assoc. reflexivity.
Qed.

Section Placeholder.
Variable ph : list ascii.
Hypothesis Hhd : exists Y, ph = "["%char :: Y.
Hypothesis Htl : exists B, ph = B ++ ["]"%char].
Hypothesis Hkey : forallb (fun c => negb (keyc c)) ph = true.

Lemma ph_safe' rj : has_key rj = true -> re_chars rj "]"%char = false ->
  forall i p Z, i < List.length ph -> exec rj p (skipn i ph ++ Z) = None.
Proof.
  intros Hk Hc. destruct Htl as [B EB]. rewrite EB in *.
  apply ph_safe; auto. rewrite forallb_app in Hkey. apply andb_prop in Hkey; tauto.
Qed.

(** [rj] without [\b]: its matches are found anywhere, independently of
    the neighbouring characters. *)
Lemma free_no_match rj rk s :
  bnd_free rj = true -> non_empty rj = true -> has_key rj = true ->
  re_chars rj "["%char = false -> re_chars rj "]"%char = false ->
  non_empty rk = true ->
  scan_gaps rk (fun p s => exec rj p s = None) (S (List.length s)) None s ->
  has_match rj None (replace_all rk ph s) = false.
Proof.
  intros Hb Hne Hk Hc1 Hc2 Hnk Hg.
  destruct Hhd as [Y EY].
  apply (replace_all_no_match rj rk ph (fun _ _ _ => True)); auto.
  - intros p w r HM. eapply non_empty_sound; eauto.
  - apply ph_safe'; auto.
  - intros p; apply exec_nil; exact Hne.
  - rewrite EY. intros po G m R Z HG HMk Hn. eapply hwin_free; eauto.
  - intros pr po c t X _ Hn. eapply exec_prev_free; eauto.
Qed.

(** [rj] of the form [\b...\b], with matches of [rk] of the same form. *)
Lemma bounded_no_match rj rk s :
  word_bounded rj = true -> non_empty rj = true -> has_key rj = true ->
  re_chars rj "["%char = false -> re_chars rj "]"%char = false ->
  word_bounded rk = true -> non_empty rk = true ->
  scan_gaps rk (fun p s => exec rj p s = None) (S (List.length s)) None s ->
  has_match rj None (replace_all rk ph s) = false.
Proof.
  intros Hb Hne Hk Hc1 Hc2 Hbk Hnk Hg.
  destruct Hhd as [Y EY].
  apply (replace_all_no_match rj rk ph
           (fun pr po s => pr = po \/ word_opt (hd_error s) = false)); auto.
  - intros p w r HM. eapply non_empty_sound; eauto.
  - apply ph_safe'; auto.
  - intros p; apply exec_nil; exact Hne.
  - rewrite EY. intros po G m R Z HG HMk Hn. eapply hwin_bnd; eauto.
  - intros p q m R HM. right.
    destruct (word_bounded_sound _ _ _ _ HM Hbk) as (x & w' & E & H1 & H2 & H3 & H4); exact H4.
  - intros pr po c t X [-> | Hw] Hn; auto.
    apply exec_none_of. intros w rest Hs HM.
    destruct (word_bounded_sound _ _ _ _ HM Hb) as (x & w' & -> & Hx & _).
    simpl in Hs. injection Hs as -> _. simpl in Hw. congruence.
Qed.

End Placeholder.

End NoRematch.

(** ** The five steps of [redact] leave no match behind *)

Module RedactFacts.
Import Regex RegexFacts MatchFacts ScanFacts AnalysisFacts NoRematch Types PIIFilter.

Lemma placeholder_ok_sound ph : placeholder_ok ph = true ->
  (exists Y, ph = "["%char :: Y) /\ (exists B, ph = B ++ ["]"%char]) /\
  forallb (fun c => negb (keyc c)) ph = true.
Proof.
  unfold placeholder_ok. intros H.
  apply andb_prop in H as [H Hk]. apply andb_prop in H as [H1 H2].
  split; [|split; [|exact Hk]].
  - destruct ph as [|c Y]; [discriminate|]. apply Ascii.eqb_eq in H1. subst. eauto.
  - destruct (rev ph) as [|c t] eqn:E; [discriminate|]. apply Ascii.eqb_eq in H2. subst.
    exists (rev t). rewrite <- (rev_involutive ph), E. reflexivity.
Qed.

Ltac split_pii H :=
  do 4 (apply andb_prop in H as [H ?]);
  repeat match goal with Hn : negb _ = true |- _ => apply negb_true_iff in Hn end.

Lemma free_after rj rk ph s : free_pii rj = true -> non_empty rk = true ->
  placeholder_ok ph = true -> has_match rj None s = false ->
  has_match rj None (replace_all rk ph s) = false.
Proof.
  intros Hj Hk Hph Hs. destruct (placeholder_ok_sound _ Hph) as (H1 & H2 & H3).
  unfold free_pii in Hj. split_pii Hj.
  apply free_no_match; auto. apply scan_gaps_nomatch; auto.
  intros p w r HM. eapply non_empty_sound; eauto.
Qed.

Lemma free_kill rj ph s : free_pii rj = true -> placeholder_ok ph = true ->
  has_match rj None (replace_all rj ph s) = false.
Proof.
  intros Hj Hph. destruct (placeholder_ok_sound _ Hph) as (H1 & H2 & H3).
  unfold free_pii in Hj. split_pii Hj.
  apply free_no_match; auto. apply scan_gaps_self.
Qed.

Lemma bounded_after rj rk ph s : bounded_pii rj = true -> bounded_pii rk = true ->
  placeholder_ok ph = true -> has_match rj None s = false ->
  has_match rj None (replace_all rk ph s) = false.
Proof.
  intros Hj Hk Hph Hs. destruct (placeholder_ok_sound _ Hph) as (H1 & H2 & H3).
  unfold bounded_pii in Hj, Hk. split_pii Hj. split_pii Hk.
  apply bounded_no_match; auto. apply scan_gaps_nomatch; auto.
  intros p w r HM. eapply non_empty_sound; eauto.
Qed.

Lemma bounded_kill rj ph s : bounded_pii rj = true -> placeholder_ok ph = true ->
  has_match rj None (replace_all rj ph s) = false.
Proof.
  intros Hj Hph. destruct (placeholder_ok_sound _ Hph) as (H1 & H2 & H3).
  unfold bounded_pii in Hj. split_pii Hj.
  apply bounded_no_match; auto. apply scan_gaps_self.
Qed.

Lemma email_free : free_pii emailRegex = true.
Proof. vm_compute. reflexivity. Qed.
Lemma phone_bounded : bounded_pii phoneRegex = true.
Proof. vm_compute. reflexivity. Qed.
Lemma emp_bounded : bounded_pii employeeIdRegex = true.
Proof. vm_compute. reflexivity. Qed.
Lemma card_bounded : bounded_pii creditCardRegex = true.
Proof. vm_compute. reflexivity. Qed.
Lemma project_bounded : bounded_pii projectCodewordRegex = true.
Proof. vm_compute. reflexivity. Qed.

Lemma placeholders_ok :
  placeholder_ok (list_ascii_of_string "[REDACTED_EMAIL]") = true /\
  placeholder_ok (list_ascii_of_string "[REDACTED_PHONE]") = true /\
  placeholder_ok (list_ascii_of_string "[REDACTED_EMP_ID]") = true /\
  placeholder_ok (list_ascii_of_string "[REDACTED_CREDIT_CARD]") = true /\
  placeholder_ok (list_ascii_of_string "[REDACTED_PROJECT_CODE]") = true.
Proof. vm_compute. repeat split. Qed.

End RedactFacts.

Module RedactIdem.
Import Regex Types PIIFilter RedactFacts.

Lemma pii_step_noop rx ph l t st :
  has_match rx None t = false -> pii_step rx ph l t st = (t, st).
Proof. intros H. destruct st. unfold pii_step. rewrite H. reflexivity. Qed.

Lemma step_kill rx ph l t st t' st' : pii_step rx ph l t st = (t', st') ->
  (forall s, has_match rx None (replace_all rx (list_ascii_of_string ph) s) = false) ->
  has_match rx None t' = false.
Proof.
  intros E Hk. destruct st. unfold pii_step in E.
  destruct (has_match rx None t) eqn:Ht; injection E as <- _; auto.
Qed.

Lemma step_keep rj rx ph l t st t' st' : pii_step rx ph l t st = (t', st') ->
  has_match rj None t = false ->
  (forall s, has_match rj None s = false ->
     has_match rj None (replace_all rx (list_ascii_of_string ph) s) = false) ->
  has_match rj None t' = false.
Proof.
  intros E Ht Hk. destruct st. unfold pii_step in E.
  destruct (has_match rx None t); injection E as <- _; auto.
Qed.

Ltac pii_side := solve [ assumption | vm_compute; reflexivity ].
Ltac no_pii := intros; first
  [ solve [apply free_kill; pii_side] | solve [apply bounded_kill; pii_side]
  | solve [apply free_after; pii_side] | solve [apply bounded_after; pii_side] ].

Lemma redact_text_clean t st t' st' : redact_text t st = (t', st') ->
  has_match emailRegex None t' = false /\ has_match phoneRegex None t' = false /\
  has_match employeeIdRegex None t' = false /\ has_match creditCardRegex None t' = false /\
  has_match projectCodewordRegex None t' = false.
Proof.
  unfold redact_text. intros H.
  destruct (pii_step emailRegex _ _ t st) as [t1 s1] eqn:E1.
  destruct (pii_step phoneRegex _ _ t1 s1) as [t2 s2] eqn:E2.
  destruct (pii_step employeeIdRegex _ _ t2 s2) as [t3 s3] eqn:E3.
  destruct (pii_step creditCardRegex _ _ t3 s3) as [t4 s4] eqn:E4.
  assert (a1 : has_match emailRegex None t1 = false) by (eapply step_kill; [exact E1|no_pii]).
  assert (a2 : has_match emailRegex None t2 = false) by (eapply step_keep; [exact E2|exact a1|no_pii]).
  assert (a3 : has_match emailRegex None t3 = false) by (eapply step_keep; [exact E3|exact a2|no_pii]).
  assert (a4 : has_match emailRegex None t4 = false) by (eapply step_keep; [exact E4|exact a3|no_pii]).
  assert (a5 : has_match emailRegex None t' = false) by (eapply step_keep; [exact H|exact a4|no_pii]).
  assert (b2 : has_match phoneRegex None t2 = false) by (eapply step_kill; [exact E2|no_pii]).
  assert (b3 : has_match phoneRegex None t3 = false) by (eapply step_keep; [exact E3|exact b2|no_pii]).
  assert (b4 : has_match phoneRegex None t4 = false) by (eapply step_keep; [exact E4|exact b3|no_pii]).
  assert (b5 : has_match phoneRegex None t' = false) by (eapply step_keep; [exact H|exact b4|no_pii]).
  assert (c3 : has_match employeeIdRegex None t3 = false) by (eapply step_kill; [exact E3|no_pii]).
  assert (c4 : has_match employeeIdRegex None t4 = false) by (eapply step_keep; [exact E4|exact c3|no_pii]).
  assert (c5 : has_match employeeIdRegex None t' = false) by (eapply step_keep; [exact H|exact c4|no_pii]).
  assert (d4 : has_match creditCardRegex None t4 = false) by (eapply step_kill; [exact E4|no_pii]).
  assert (d5 : has_match creditCardRegex None t' = false) by (eapply step_keep; [exact H|exact d4|no_pii]).
  assert (e5 : has_match projectCodewordRegex None t' = false) by (eapply step_kill; [exact H|no_pii]).
  auto.
Qed.

Lemma redact_text_fix t st t' st' st'' : redact_text t st = (t', st') ->
  redact_text t' st'' = (t', st'').
Proof.
  intros H. destruct (redact_text_clean _ _ _ _ H) as (h1 & h2 & h3 & h4 & h5).
  unfold redact_text.
  rewrite (pii_step_noop _ _ _ _ _ h1). cbn beta iota.
  rewrite (pii_step_noop _ _ _ _ _ h2). cbn beta iota.
  rewrite (pii_step_noop _ _ _ _ _ h3). cbn beta iota.
  rewrite (pii_step_noop _ _ _ _ _ h4). cbn beta iota.
  apply pii_step_noop; exact h5.
Qed.

Lemma redact_part_fix part st part' st' st'' : redact_part part st = (part', st') ->
  redact_part part' st'' = (part', st'').
Proof.
  unfold redact_part. intros H. destruct (truthy (text part)) as [s|] eqn:Et.
  - destruct (redact_text (text_chars s) st) as [nt s1] eqn:Er.
    injection H as <- _. cbn [text payload]. unfold truthy.
    destruct (String.eqb (string_of_list_ascii nt) EmptyString); [reflexivity|].
    unfold text_chars. rewrite list_ascii_of_string_of_list_ascii.
    rewrite (redact_text_fix _ _ _ _ st'' Er). reflexivity.
  - injection H as <- _. rewrite Et. reflexivity.
Qed.

Lemma redact_map_fix ps : forall st ps' st' st'', redact_map ps st = (ps', st') ->
  redact_map ps' st'' = (ps', st'').
Proof.
  induction ps as [|part rest IH]; intros st ps' st' st'' H; simpl in H.
  - injection H as <- _. reflexivity.
  - destruct (redact_part part st) as [part' s1] eqn:Ep.
    destruct (redact_map rest s1) as [rest' s2] eqn:Er.
    injection H as <- _. simpl.
    rewrite (redact_part_fix _ _ _ _ st'' Ep), (IH _ _ _ st'' Er). reflexivity.
Qed.

End RedactIdem.

(** ** [redact] on the heap, and what [wasRedacted] records *)

Module RedactFrame.
Import Regex MatchFacts ScanFacts AnalysisFacts Types PIIFilter RedactFacts RedactIdem.

Lemma read_ext h ext arr : (forall l, In l arr -> l < List.length h) ->
  read (h ++ ext) arr = read h arr.
Proof.
  intros H. unfold read. apply map_ext_in. intros l Hl. apply app_nth1. auto.
Qed.

Lemma redact_in_store_spec arr : forall h st,
  (forall l, In l arr -> l < List.length h) ->
  let '(h', arr', st') := redact_in_store h arr st in
  (exists ext, h' = h ++ ext) /\ (forall l, In l arr' -> l < List.length h') /\
  redact_map (read h arr) st = (read h' arr', st').
Proof.
  induction arr as [|l rest IH]; intros h st Hin; simpl.
  - split; [exists []; rewrite app_nil_r; reflexivity|]. split; [intros _ []|reflexivity].
  - destruct (truthy (text (nth l h default_part))) as [t|] eqn:Et.
    + destruct (redact_text (text_chars t) st) as [nt st1] eqn:Er.
      set (np := mkPart (Some (string_of_list_ascii nt)) (payload (nth l h default_part))).
      assert (Hin1 : forall l', In l' rest -> l' < List.length (h ++ [np])).
      { intros l' H'. rewrite length_app. specialize (Hin l' (or_intror H')). lia. }
      specialize (IH (h ++ [np]) st1 Hin1).
      destruct (redact_in_store (h ++ [np]) rest st1) as [[h2 rest'] st2].
      destruct IH as [[ext Eh] [Hl Hm]].
      split; [exists (np :: ext); rewrite Eh, <- app_assoc; reflexivity|].
      split.
      * intros l' [<- | H']; auto. rewrite Eh, !length_app. simpl. lia.
      * unfold read in *. simpl. unfold redact_part. rewrite Et, Er.
        change (map (fun l0 => nth l0 h default_part) rest) with (read h rest).
        rewrite <- (read_ext h [np] rest) by (intros l' H'; exact (Hin l' (or_intror H'))).
        unfold read. rewrite Hm. f_equal. f_equal.
        rewrite Eh, <- app_assoc. simpl.
        rewrite nth_middle. reflexivity.
    + specialize (IH h st (fun l' H' => Hin l' (or_intror H'))).
      destruct (redact_in_store h rest st) as [[h2 rest'] st2].
      destruct IH as [[ext Eh] [Hl Hm]].
      split; [exists ext; exact Eh|]. split.
      * intros l' [<- | H']; [|auto]. rewrite Eh, length_app.
        specialize (Hin _ (or_introl eq_refl)). lia.
      * unfold read in *. simpl. unfold redact_part. rewrite Et.
        rewrite Hm. rewrite Eh, app_nth1 by (apply Hin; left; reflexivity). reflexivity.
Qed.

Lemma pii_cond rx : free_pii rx || bounded_pii rx = true ->
  non_empty rx = true /\ re_chars rx "["%char = false.
Proof.
  intros H. apply orb_prop in H as [H|H];
    [unfold free_pii in H|unfold bounded_pii in H]; split_pii H; auto.
Qed.

Lemma pii_step_spec rx ph l t st :
  free_pii rx || bounded_pii rx = true ->
  0 < count_char "["%char (list_ascii_of_string ph) ->
  let '(t', st') := pii_step rx ph l t st in
  (fst st' = fst st /\ t' = t) \/
  (fst st' = true /\ count_char "["%char t < count_char "["%char t').
Proof.
  intros Hrx Hph. destruct (pii_cond _ Hrx) as [Hne Hc].
  destruct st as [w j]. unfold pii_step.
  destruct (has_match rx None t) eqn:Hm; [right|left; auto].
  split; [reflexivity|]. unfold replace_all.
  apply (count_replace rx _ (fun p w r HM => non_empty_sound _ _ _ _ HM Hne)); auto.
  intros p w0 r HM. exact (forallb_not_in _ _ _ (M_chars _ _ _ _ HM) Hc).
Qed.

Lemma count_le_step rx ph l t st :
  free_pii rx || bounded_pii rx = true ->
  0 < count_char "["%char (list_ascii_of_string ph) ->
  count_char "["%char t <= count_char "["%char (fst (pii_step rx ph l t st)).
Proof.
  intros H1 H2. pose proof (pii_step_spec rx ph l t st H1 H2) as H.
  destruct (pii_step rx ph l t st) as [t' st']. simpl.
  destruct H as [[_ ->]|[_ H]]; lia.
Qed.

Ltac step_spec E :=
  match type of E with
  | pii_step ?rx ?ph ?l ?t ?st = _ =>
      let H := fresh "S" in
      pose proof (pii_step_spec rx ph l t st ltac:(vm_compute; reflexivity)
                    ltac:(vm_compute; lia)) as H;
      rewrite E in H
  end.

Lemma redact_text_spec t st t' st' : redact_text t st = (t', st') ->
  (fst st' = fst st /\ t' = t) \/
  (fst st' = true /\ count_char "["%char t < count_char "["%char t').
Proof.
  unfold redact_text. intros H.
  destruct (pii_step emailRegex _ _ t st) as [t1 s1] eqn:E1.
  destruct (pii_step phoneRegex _ _ t1 s1) as [t2 s2] eqn:E2.
  destruct (pii_step employeeIdRegex _ _ t2 s2) as [t3 s3] eqn:E3.
  destruct (pii_step creditCardRegex _ _ t3 s3) as [t4 s4] eqn:E4.
  step_spec E1. step_spec E2. step_spec E3. step_spec E4. step_spec H.
  destruct S as [[A1 B1]|[A1 B1]]; destruct S0 as [[A2 B2]|[A2 B2]];
  destruct S1 as [[A3 B3]|[A3 B3]]; destruct S2 as [[A4 B4]|[A4 B4]];
  destruct S3 as [[A5 B5]|[A5 B5]]; subst;
  solve [left; split; congruence | right; split; [congruence|lia]].
Qed.

Lemma redact_text_noop t st :
  has_match emailRegex None t = false -> has_match phoneRegex None t = false ->
  has_match employeeIdRegex None t = false -> has_match creditCardRegex None t = false ->
  has_match projectCodewordRegex None t = false -> redact_text t st = (t, st).
Proof.
  intros h1 h2 h3 h4 h5. unfold redact_text.
  rewrite (pii_step_noop _ _ _ _ _ h1). cbn beta iota.
  rewrite (pii_step_noop _ _ _ _ _ h2). cbn beta iota.
  rewrite (pii_step_noop _ _ _ _ _ h3). cbn beta iota.
  rewrite (pii_step_noop _ _ _ _ _ h4). cbn beta iota.
  apply pii_step_noop; exact h5.
Qed.

End RedactFrame.

Module RedactChange.
Import Regex Types PIIFilter RedactIdem RedactFrame.

Lemma truthy_some o t : truthy o = Some t -> o = Some t.
Proof.
  destruct o as [s|]; simpl; [|discriminate].
  destruct (String.eqb s EmptyString); congruence.
Qed.

Lemma redact_part_spec part st part' st' : redact_part part st = (part', st') ->
  (fst st' = fst st /\ part' = part) \/ (fst st' = true /\ part' <> part).
Proof.
  unfold redact_part. destruct (truthy (text part)) as [t|] eqn:Et.
  - apply truthy_some in Et.
    destruct (redact_text (text_chars t) st) as [nt s1] eqn:Er.
    intros E. injection E as <- <-. apply redact_text_spec in Er.
    destruct Er as [[A B]|[A B]].
    + left. split; auto. subst nt. unfold text_chars.
      rewrite string_of_list_ascii_of_string. destruct part; simpl in *; congruence.
    + right. split; auto. intros E. apply (f_equal text) in E. simpl in E.
      rewrite Et in E. injection E as E.
      apply (f_equal list_ascii_of_string) in E.
      rewrite list_ascii_of_string_of_list_ascii in E. unfold text_chars in B.
      rewrite E in B. lia.
  - intros E. injection E as <- <-. left; auto.
Qed.

Lemma redact_map_spec ps : forall st ps' st', redact_map ps st = (ps', st') ->
  (fst st' = fst st /\ ps' = ps) \/ (fst st' = true /\ ps' <> ps).
Proof.
  induction ps as [|part rest IH]; intros st ps' st' H; simpl in H.
  - injection H as <- <-. left; auto.
  - destruct (redact_part part st) as [part' s1] eqn:Ep.
    destruct (redact_map rest s1) as [rest' s2] eqn:Er.
    injection H as <- <-.
    apply redact_part_spec in Ep. apply IH in Er.
    destruct Ep as [[A1 B1]|[A1 B1]]; destruct Er as [[A2 B2]|[A2 B2]].
    + left. split; [congruence|subst; reflexivity].
    + right. split; [exact A2|]. intros E; injection E as _ E; contradiction.
    + right. split; [congruence|]. intros E; injection E as E _; contradiction.
    + right. split; [exact A2|]. intros E; injection E as E _; contradiction.
Qed.

Lemma redact_map_noop ps : forall st,
  (forall part t, In part ps -> truthy (text part) = Some t -> clean_text t) ->
  redact_map ps st = (ps, st).
Proof.
  induction ps as [|part rest IH]; intros st H; simpl; [reflexivity|].
  assert (Hp : redact_part part st = (part, st)).
  { unfold redact_part. destruct (truthy (text part)) as [t|] eqn:Et; [|reflexivity].
    destruct (H part t (or_introl eq_refl) Et) as (h1 & h2 & h3 & h4 & h5).
    rewrite (redact_text_noop _ _ h1 h2 h3 h4 h5).
    apply truthy_some in Et. unfold text_chars. rewrite string_of_list_ascii_of_string.
    destruct part; simpl in *; subst; reflexivity. }
  rewrite Hp. cbn beta iota.
  rewrite IH by (intros p t Hq; apply H; right; exact Hq). reflexivity.
Qed.

End RedactChange.

(** ** The classifier's buffer *)

Module ClassifierFacts.
Import Types RiskClassifier.

Lemma starts_with_iff n s : starts_with n s = true <-> exists b, s = n ++ b.
Proof.
  revert s; induction n as [|x n IH]; intros s; simpl.
  - split; [exists s; reflexivity|reflexivity].
  - destruct s as [|y s].
    + split; [discriminate|intros [b E]; discriminate].
    + rewrite andb_true_iff, Ascii.eqb_eq, IH. split.
      * intros [-> [b ->]]. exists b; reflexivity.
      * intros [b E]. injection E as -> E. split; [reflexivity|exists b; exact E].
Qed.

Lemma includes_iff s n : includes s n = true <-> exists a b, s = a ++ n ++ b.
Proof.
  induction s as [|c s IH]; simpl; rewrite orb_true_iff, starts_with_iff.
  - split.
    + intros [[b E]|H]; [exists [], b; exact E|discriminate].
    + intros [a [b E]]. left. destruct a as [|x a]; [exists b; exact E|discriminate].
  - rewrite IH. split.
    + intros [[b E]|[a [b E]]]; [exists [], b; exact E|exists (c :: a), b; rewrite E; reflexivity].
    + intros [a [b E]]. destruct a as [|x a].
      * left. exists b. exact E.
      * right. injection E as -> E. exists a, b. exact E.
Qed.

(** A trailing space does not create an occurrence of a keyword that is
    non-empty and does not end in a space. *)
Lemma includes_sp B n : n <> [] -> last n "a"%char <> " "%char ->
  includes (B ++ sp) n = includes B n.
Proof.
  intros Hn Hl. apply eq_true_iff_eq. rewrite !includes_iff. split.
  - intros [a [b E]]. destruct b as [|z b] using rev_ind.
    + exfalso. destruct (exists_last Hn) as [n' [y En]]. subst n.
      rewrite app_nil_r, app_assoc in E. unfold sp in E. apply app_inj_tail in E as [_ Ey].
      rewrite last_last in Hl. congruence.
    + rewrite !app_assoc in E. unfold sp in E. apply app_inj_tail in E as [E _].
      exists a, b. rewrite E, !app_assoc. reflexivity.
  - intros [a [b E]]. exists a, (b ++ sp). rewrite E, !app_assoc. reflexivity.
Qed.

Lemma combine_concat parts : forall acc,
  combine parts acc = acc ++ List.concat (map (fun x => x ++ sp) (fragment_texts parts)).
Proof.
  induction parts as [|part rest IH]; intros acc; simpl.
  - rewrite app_nil_r. reflexivity.
  - destruct (truthy (text part)) as [t|]; rewrite IH; [|reflexivity].
    simpl. rewrite !app_assoc. reflexivity.
Qed.

Lemma concat_join (F : list (list ascii)) : F <> [] ->
  List.concat (map (fun x => x ++ sp) F) = join sp F ++ sp.
Proof.
  induction F as [|x F IH]; intros H; [congruence|].
  destruct F as [|y F].
  - simpl. rewrite !app_nil_r. reflexivity.
  - change (join sp (x :: y :: F)) with (x ++ sp ++ join sp (y :: F)).
    simpl List.concat. simpl map in IH. simpl List.concat in IH.
    rewrite IH by discriminate. rewrite !app_assoc. reflexivity.
Qed.

(** The code's [combinedText] is the spec's buffer, with a trailing space
    when some fragment has text. *)
Lemma buffer_eq parts :
  toLowerCase (combine parts []) = spec_buffer parts \/
  toLowerCase (combine parts []) = spec_buffer parts ++ sp.
Proof.
  rewrite combine_concat. simpl. unfold spec_buffer.
  destruct (fragment_texts parts) as [|x F] eqn:E.
  - left. reflexivity.
  - right. rewrite concat_join by discriminate. unfold toLowerCase.
    rewrite map_app. reflexivity.
Qed.

Lemma has_sp B kw : list_ascii_of_string kw <> [] ->
  last (list_ascii_of_string kw) "a"%char <> " "%char ->
  has (B ++ sp) kw = has B kw.
Proof. unfold has. apply includes_sp. Qed.

End ClassifierFacts.

(** ** The request phase *)

Module EngineFacts.
Import Types AuditLogger GovernanceEngine.

Lemma request_shape policies env input mv mp ag t :
  let ri := if piiRedaction policies then PIIFilter.redactedParts (PIIFilter.redact input)
            else input in
  let lc := RiskClassifier.classify ri in
  let '(r, t') := interceptRequest policies env input mv mp ag t in
  redactedInput (rq_context r) = Some ri /\ riskLevel (rq_context r) = Some (fst lc) /\
  riskCategory (rq_context r) = Some (snd lc) /\
  (if blockHighRisk policies && is_high (fst lc) then
     rq_proceed r = false /\ rq_error r = Some "Request blocked due to High Risk policy." /\
     rq_requiresApproval r = None /\ guardrailDecision (rq_context r) = Some BLOCKED /\
     t' = log (rq_context r) t
   else if is_high (fst lc) && negb (approved ag) then
     rq_proceed r = false /\ rq_error r = None /\ rq_requiresApproval r = Some true /\ t' = t
   else rq_proceed r = true /\ rq_error r = None /\ rq_requiresApproval r = None /\ t' = t).
Proof.
  unfold interceptRequest. cbv zeta.
  destruct (piiRedaction policies);
    [destruct (PIIFilter.redact input) as [rp w j]; cbn [PIIFilter.redactedParts]|];
    match goal with |- context [RiskClassifier.classify ?ri] =>
      destruct (RiskClassifier.classify ri) as [lvl cat] end;
    destruct (blockHighRisk policies); destruct lvl; destruct ag as [[]|];
    simpl; repeat split.
Qed.

End EngineFacts.

Module ResponseFacts.

Lemma append_empty_r (s : string) : String.append s EmptyString = s.
Proof. induction s as [|c s IH]; simpl; [reflexivity|rewrite IH; reflexivity]. Qed.

Lemma append_assoc (s1 s2 s3 : string) :
  String.append s1 (String.append s2 s3) = String.append (String.append s1 s2) s3.
Proof. induction s1 as [|c s1 IH]; simpl; [reflexivity|rewrite IH; reflexivity]. Qed.

End ResponseFacts.

(** * The claims *)

Module GovClaims.
Import Regex Types PIIFilter RiskClassifier OutputGuardrail AuditLogger GovernanceEngine.

(** ** Request phase *)

(** C1: when [blockHighRisk] is off and the request is classified HIGH,
    [interceptRequest] without an approval ([approvalGranted] absent or
    false) returns [proceed = false] and [requiresApproval = true]; with
    [approvalGranted = true] it returns [proceed = true]; in both cases the
    audit trail is left unchanged.  The level is the one the call computes,
    from the redacted input. *)
Theorem C1_high_request_awaits_approval policies env input mv mp ag t :
  blockHighRisk policies = false ->
  riskLevel (rq_context (fst (interceptRequest policies env input mv mp ag t))) = Some HIGH ->
  let '(r, t') := interceptRequest policies env input mv mp ag t in
  t' = t /\ rq_error r = None /\
  (approved ag = false -> rq_proceed r = false /\ rq_requiresApproval r = Some true) /\
  (ag = Some true -> rq_proceed r = true /\ rq_requiresApproval r = None).
Proof.
  intros Hb Hh. pose proof (EngineFacts.request_shape policies env input mv mp ag t) as S.
  cbv zeta in S. destruct (interceptRequest policies env input mv mp ag t) as [r t'].
  simpl in Hh. destruct S as (_ & Hl & _ & S). rewrite Hh in Hl. injection Hl as Hl.
  rewrite Hb, <- Hl in S. simpl in S.
  destruct ag as [[]|]; simpl in S; destruct S as (S1 & S2 & S3 & S4);
    (split; [exact S4|]; split; [exact S2|];
     split; intros Hx; solve [discriminate | split; assumption]).
Qed.

Lemma C1_witness :
  blockHighRisk DEFAULT_POLICIES = false /\
  riskLevel (rq_context (fst (interceptRequest DEFAULT_POLICIES (mkEnv "req-1" None 0)
    [mkPart (Some "Keep this secret") None] "gemini" [] None []))) = Some HIGH /\
  let '(r, t') := interceptRequest DEFAULT_POLICIES (mkEnv "req-1" None 0)
    [mkPart (Some "Keep this secret") None] "gemini" [] None [] in
  t' = [] /\ rq_error r = None /\
  (approved None = false -> rq_proceed r = false /\ rq_requiresApproval r = Some true) /\
  (None = Some true -> rq_proceed r = true /\ rq_requiresApproval r = None).
Proof.
  split; [reflexivity|]. split; [vm_compute; reflexivity|].
  apply C1_high_request_awaits_approval; [reflexivity|vm_compute; reflexivity].
Defined.

(** C2: with [blockHighRisk] on, a request classified HIGH returns
    [proceed = false], an error and no [requiresApproval], its context has
    the decision BLOCKED, and exactly one audit entry (with the decision
    BLOCKED) is appended; in every other case the request phase leaves the
    audit trail unchanged. *)
Theorem C2_blocked_request_logs_once policies env input mv mp ag t :
  let '(r, t') := interceptRequest policies env input mv mp ag t in
  (blockHighRisk policies = true -> riskLevel (rq_context r) = Some HIGH ->
     rq_proceed r = false /\ rq_error r <> None /\ rq_requiresApproval r = None /\
     guardrailDecision (rq_context r) = Some BLOCKED /\
     t' = t ++ [entry_of (rq_context r)] /\
     e_guardrailDecision (entry_of (rq_context r)) = Some BLOCKED) /\
  (t' <> t <-> blockHighRisk policies = true /\ riskLevel (rq_context r) = Some HIGH).
Proof.
  pose proof (EngineFacts.request_shape policies env input mv mp ag t) as S.
  cbv zeta in S. destruct (interceptRequest policies env input mv mp ag t) as [r t'].
  destruct S as (_ & Hl & _ & S). rewrite Hl. revert S.
  generalize (fst (classify (if piiRedaction policies
                             then redactedParts (redact input) else input))) as L.
  intros L S. destruct (blockHighRisk policies && is_high L) eqn:E.
  - apply andb_prop in E as [Eb EL]. destruct L; try discriminate EL.
    destruct S as (A & B & C & D & F). unfold log in F. split.
    + intros _ _. split; [exact A|]. split; [rewrite B; discriminate|].
      split; [exact C|]. split; [exact D|]. split; [exact F|]. simpl. exact D.
    + split; [intros _; auto|]. intros _ H. rewrite F in H.
      apply (f_equal (@List.length _)) in H. rewrite length_app in H. simpl in H. lia.
  - assert (Ht : t' = t) by (destruct (is_high L && negb (approved ag)); tauto).
    subst t'. split.
    + intros Eb EL. injection EL as ->. rewrite Eb in E. simpl in E. discriminate.
    + split; [intros H; exfalso; apply H; reflexivity|].
      intros [Eb EL]. injection EL as ->. rewrite Eb in E. simpl in E. discriminate.
Qed.

Lemma C2_witness :
  let '(r, t') := interceptRequest (mkPolicies true true true) (mkEnv "req-2" None 0)
    [mkPart (Some "Should I invest in this stock?") None] "gemini" [] None [] in
  blockHighRisk (mkPolicies true true true) = true /\ riskLevel (rq_context r) = Some HIGH /\
  rq_proceed r = false /\ rq_requiresApproval r = None /\
  guardrailDecision (rq_context r) = Some BLOCKED /\ t' = [entry_of (rq_context r)].
Proof.
  pose proof (C2_blocked_request_logs_once (mkPolicies true true true) (mkEnv "req-2" None 0)
    [mkPart (Some "Should I invest in this stock?") None] "gemini" [] None []) as H.
  assert (Hh : riskLevel (rq_context (fst (interceptRequest (mkPolicies true true true)
    (mkEnv "req-2" None 0) [mkPart (Some "Should I invest in this stock?") None]
    "gemini" [] None []))) = Some HIGH) by (vm_compute; reflexivity).
  destruct (interceptRequest (mkPolicies true true true) (mkEnv "req-2" None 0)
    [mkPart (Some "Should I invest in this stock?") None] "gemini" [] None []) as [r t'].
  simpl in Hh. destruct H as [H _].
  destruct (H eq_refl Hh) as (A & _ & C & D & F & _).
  repeat split; auto.
Defined.

(** C9 (corrected): the context returned by [interceptRequest] always
    carries the redacted input: the redacted parts when [piiRedaction] is
    on, the input itself when it is off.  When redaction is off or redacted
    nothing, the attribute is present and equal to the input. *)
Theorem C9_redacted_input_always_present policies env input mv mp ag t :
  redactedInput (rq_context (fst (interceptRequest policies env input mv mp ag t))) =
    Some (if piiRedaction policies then redactedParts (redact input) else input) /\
  (piiRedaction policies = false \/ wasRedacted (redact input) = false ->
   redactedInput (rq_context (fst (interceptRequest policies env input mv mp ag t))) =
     Some input).
Proof.
  pose proof (EngineFacts.request_shape policies env input mv mp ag t) as S.
  cbv zeta in S. destruct (interceptRequest policies env input mv mp ag t) as [r t'].
  destruct S as (Hr & _). simpl. split; [exact Hr|].
  intros [Hp | Hw]; rewrite Hr.
  - rewrite Hp. reflexivity.
  - destruct (piiRedaction policies); [|reflexivity].
    unfold redact in *. destruct (redact_map input (false, [])) as [rp [w j]] eqn:E.
    simpl in Hw |- *. subst w.
    destruct (RedactChange.redact_map_spec _ _ _ _ E) as [[_ ->] | [Hc _]];
      [reflexivity | discriminate].
Qed.

Lemma C9_witness :
  (piiRedaction (mkPolicies false false true) = false \/
   wasRedacted (redact [mkPart (Some "a@b.com") None]) = false) /\
  redactedInput (rq_context (fst (interceptRequest (mkPolicies false false true)
    (mkEnv "req-3" None 0) [mkPart (Some "a@b.com") None] "gemini" [] None []))) =
    Some [mkPart (Some "a@b.com") None].
Proof.
  split; [left; reflexivity|].
  apply C9_redacted_input_always_present. left; reflexivity.
Defined.

(** C9 as stated (the attribute absent when redaction is off or changed
    nothing) fails: with [piiRedaction] off the context carries the input. *)
Lemma C9_counterexample :
  ~ (forall policies env input mv mp ag t,
       piiRedaction policies = false \/ redactedParts (redact input) = input ->
       redactedInput (rq_context (fst (interceptRequest policies env input mv mp ag t))) = None).
Proof.
  intros H.
  specialize (H (mkPolicies false false true) (mkEnv "req-4" None 0)
                [mkPart (Some "hello") None] "gemini" [] None [] (or_introl eq_refl)).
  vm_compute in H. discriminate.
Qed.

(** ** Response phase *)

(** C3 (corrected): when the joined text of the first candidate has a match
    of the email pattern, [validate] returns BLOCKED with the reason
    ["PII detected in output"] at every risk level (so also where HIGH would
    give FLAGGED_FOR_REVIEW), and [interceptResponse] returns
    [proceed = false] with the error ["Output blocked: PII detected in
    output"], after appending exactly one audit entry. *)
Theorem C3_email_in_output_blocks ctx response t c lvl :
  first_content response = Some c ->
  has_match piiRegex None (content_text c) = true ->
  validate response lvl = (BLOCKED, Some "PII detected in output") /\
  let '(ctx', out, t') := interceptResponse ctx response t in
  out = Returned response false (Some "Output blocked: PII detected in output") /\
  guardrailDecision ctx' = Some BLOCKED /\ t' = t ++ [entry_of ctx'].
Proof.
  intros Hc Hm.
  assert (Hv : forall l, validate response l = (BLOCKED, Some "PII detected in output")).
  { intros l. unfold validate. rewrite Hc, Hm. reflexivity. }
  split; [apply Hv|]. unfold interceptResponse. cbv zeta. rewrite Hv.
  cbn iota beta. unfold log. split; [reflexivity|]. split; reflexivity.
Qed.

Lemma C3_witness :
  first_content (mkResponse (Some [mkCandidate (Some (mkContent
    (Some [mkPart (Some "Write to jane.doe@corp.com") None])))])) =
    Some (mkContent (Some [mkPart (Some "Write to jane.doe@corp.com") None])) /\
  has_match piiRegex None
    (content_text (mkContent (Some [mkPart (Some "Write to jane.doe@corp.com") None]))) = true /\
  validate (mkResponse (Some [mkCandidate (Some (mkContent
    (Some [mkPart (Some "Write to jane.doe@corp.com") None])))])) HIGH =
    (BLOCKED, Some "PII detected in output").
Proof.
  split; [reflexivity|]. split; [vm_compute; reflexivity|].
  refine (proj1 (C3_email_in_output_blocks
           (mkContext "u" "r" 0 [] None (Some HIGH) (Some "HR Decision")
              None None None None None) _ []
           (mkContent (Some [mkPart (Some "Write to jane.doe@corp.com") None])) HIGH _ _));
    [reflexivity|vm_compute; reflexivity].
Defined.

(** The reason [validate] gives is not ["sensitive data detected in output"]. *)
Lemma C3_counterexample :
  ~ (forall response c lvl, first_content response = Some c ->
       has_match piiRegex None (content_text c) = true ->
       validate response lvl = (BLOCKED, Some "sensitive data detected in output")).
Proof.
  intros H.
  specialize (H (mkResponse (Some [mkCandidate (Some (mkContent
    (Some [mkPart (Some "Write to jane.doe@corp.com") None])))]))
    (mkContent (Some [mkPart (Some "Write to jane.doe@corp.com") None])) LOW
    eq_refl ltac:(vm_compute; reflexivity)).
  vm_compute in H. discriminate.
Qed.

(** C5: every call of [interceptResponse], whatever the decision and also
    when the FLAGGED_FOR_REVIEW rewrite throws, appends exactly one audit
    entry, and that entry records the decision [validate] returned for the
    response. *)
Theorem C5_response_logs_once ctx response t :
  let '(ctx', out, t') := interceptResponse ctx response t in
  exists ctxL, t' = t ++ [entry_of ctxL] /\
    output ctxL = Some response /\
    guardrailDecision ctxL = Some (fst (validate response (level_or_low (riskLevel ctx)))) /\
    e_guardrailDecision (entry_of ctxL) =
      Some (fst (validate response (level_or_low (riskLevel ctx)))) /\
    e_output (entry_of ctxL) = "Generated Content Present".
Proof.
  unfold interceptResponse. cbv zeta.
  replace (riskLevel (set_output ctx (Some response))) with (riskLevel ctx) by reflexivity.
  destruct (validate response (level_or_low (riskLevel ctx))) as [d reason].
  destruct d; [| | destruct (add_warning _ response)];
    destruct reason; cbn iota beta; eexists; unfold log;
    (split; [reflexivity|]); repeat split.
Qed.

(** C6 (code bug): for a context of level HIGH and a first candidate with
    content whose joined text has no email match, the decision is
    FLAGGED_FOR_REVIEW and it is recorded in the context (the result has no
    decision field).  When the content's [parts] array is non-empty,
    [interceptResponse] returns [proceed = true] and no error, the context's
    [output] is the returned response, and the first part of that response
    has a text that starts with the warning banner, which contains the
    stored risk category: the banner is put in front of the first part's
    text, or is a new first part when that part has no text.  When [parts]
    is the empty array, the guard lets it through, [parts[0].text] reads a
    field of [undefined] and the call throws a TypeError after logging,
    instead of inserting the banner as a new leading fragment. *)
Theorem C6_flagged_response_banner ctx response t cand cands c :
  riskLevel ctx = Some HIGH ->
  candidates response = Some (cand :: cands) -> content cand = Some c ->
  has_match piiRegex None (content_text c) = false ->
  (forall p0 ps, parts c = Some (p0 :: ps) ->
   exists ctx' p0' ps' suffix t',
    let response' :=
      mkResponse (Some (mkCandidate (Some (mkContent (Some (p0' :: ps')))) :: cands)) in
    interceptResponse ctx response t = (ctx', Returned response' true None, t') /\
    guardrailDecision ctx' = Some FLAGGED_FOR_REVIEW /\
    output ctx' = Some response' /\
    text p0' = Some (String.append (warning (riskCategory ctx)) suffix) /\
    (exists pre post, warning (riskCategory ctx) =
       String.append pre (String.append (show_opt (riskCategory ctx)) post)) /\
    (truthy (text p0) = None -> suffix = EmptyString /\ ps' = p0 :: ps) /\
    (forall t0, truthy (text p0) = Some t0 -> suffix = t0 /\ ps' = ps)) /\
  (parts c = Some [] ->
   exists ctx',
    interceptResponse ctx response t = (ctx', Threw "TypeError", t ++ [entry_of ctx']) /\
    guardrailDecision ctx' = Some FLAGGED_FOR_REVIEW /\
    output ctx' = Some response).
Proof.
  intros HL Hcs Hct Hm.
  assert (Hf : first_content response = Some c).
  { unfold first_content. rewrite Hcs. exact Hct. }
  assert (Hv : validate response (level_or_low (riskLevel ctx)) =
               (FLAGGED_FOR_REVIEW, Some "High risk use case requires human review")).
  { unfold validate. rewrite Hf, Hm, HL. reflexivity. }
  assert (Hban : exists pre post, warning (riskCategory ctx) =
            String.append pre (String.append (show_opt (riskCategory ctx)) post)).
  { unfold warning. rewrite 2!ResponseFacts.append_assoc. eexists; eexists; reflexivity. }
  split.
  2:{ intros Hps. unfold interceptResponse. cbv zeta.
      replace (riskLevel (set_output ctx (Some response))) with (riskLevel ctx) by reflexivity.
      rewrite Hv. cbn iota beta.
      unfold add_warning. cbn [riskCategory set_justification set_decision set_output].
      rewrite Hcs, Hct, Hps.
      eexists. split; [reflexivity|]. split; reflexivity. }
  intros p0 ps Hps.
  unfold interceptResponse. cbv zeta.
  replace (riskLevel (set_output ctx (Some response))) with (riskLevel ctx) by reflexivity.
  rewrite Hv. cbn iota beta.
  unfold add_warning. cbn [riskCategory set_justification set_decision set_output].
  rewrite Hcs, Hct, Hps.
  destruct (truthy (text p0)) as [t0|] eqn:Et.
  - do 5 eexists. split; [reflexivity|]. split; [reflexivity|]. split; [reflexivity|].
    split; [reflexivity|]. split; [exact Hban|]. split.
    + intros H; discriminate.
    + intros t1 H. injection H as <-. split; reflexivity.
  - exists (set_output
              (set_justification (set_decision (set_output ctx (Some response))
                 (Some FLAGGED_FOR_REVIEW))
                 (Some (String.append
                    match truthy (justification ctx) with
                    | Some j => String.append j "; "
                    | None => EmptyString end
                    "High risk use case requires human review")))
              (Some (mkResponse (Some (mkCandidate (Some (mkContent
                 (Some (mkPart (Some (warning (riskCategory ctx))) None :: p0 :: ps))))
                 :: cands))))).
    exists (mkPart (Some (warning (riskCategory ctx))) None), (p0 :: ps), EmptyString.
    eexists. split; [reflexivity|]. split; [reflexivity|]. split; [reflexivity|].
    split; [simpl; rewrite ResponseFacts.append_empty_r; reflexivity|].
    split; [exact Hban|]. split.
    + intros _. split; reflexivity.
    + intros t1 H; discriminate.
Qed.

Lemma C6_witness :
  let ctx := mkContext "u" "r" 0 [] None (Some HIGH) (Some "HR Decision")
               None None None None None in
  let part := mkPart (Some "Here is the plan.") None in
  let c := mkContent (Some [part]) in
  let response := mkResponse (Some [mkCandidate (Some c)]) in
  riskLevel ctx = Some HIGH /\
  has_match piiRegex None (content_text c) = false /\
  exists ctx' p0' ps' suffix t',
    let response' :=
      mkResponse (Some [mkCandidate (Some (mkContent (Some (p0' :: ps'))))]) in
    interceptResponse ctx response [] = (ctx', Returned response' true None, t') /\
    guardrailDecision ctx' = Some FLAGGED_FOR_REVIEW /\
    output ctx' = Some response' /\
    text p0' = Some (String.append (warning (riskCategory ctx)) suffix) /\
    (exists pre post, warning (riskCategory ctx) =
       String.append pre (String.append (show_opt (riskCategory ctx)) post)) /\
    (truthy (text part) = None -> suffix = EmptyString /\ ps' = part :: []) /\
    (forall t0, truthy (text part) = Some t0 -> suffix = t0 /\ ps' = []).
Proof.
  cbv zeta. split; [reflexivity|]. split; [vm_compute; reflexivity|].
  exact (proj1 (C6_flagged_response_banner
           (mkContext "u" "r" 0 [] None (Some HIGH) (Some "HR Decision")
              None None None None None)
           (mkResponse (Some [mkCandidate (Some (mkContent
              (Some [mkPart (Some "Here is the plan.") None])))])) []
           (mkCandidate (Some (mkContent (Some [mkPart (Some "Here is the plan.") None]))))
           [] (mkContent (Some [mkPart (Some "Here is the plan.") None]))
           eq_refl eq_refl eq_refl ltac:(vm_compute; reflexivity))
           (mkPart (Some "Here is the plan.") None) [] eq_refl).
Defined.

(** The failing input: a HIGH context and a response whose first content
    has an empty [parts] array.  Its text is clean, so the decision is
    FLAGGED_FOR_REVIEW, and the spec (like the [unshift] branch of the
    code) has the banner become a new leading fragment of a response
    returned with [proceed = true]; the code throws at [parts[0].text]
    instead. *)
Lemma C6_counterexample :
  ~ (forall ctx response t,
       riskLevel ctx = Some HIGH ->
       (forall c, first_content response = Some c ->
          has_match piiRegex None (content_text c) = false) ->
       exists ctx' response' t',
         interceptResponse ctx response t = (ctx', Returned response' true None, t') /\
         guardrailDecision ctx' = Some FLAGGED_FOR_REVIEW).
Proof.
  intros H.
  destruct (H (mkContext "u" "r" 0 [] None (Some HIGH) (Some "HR Decision")
                 None None None None None)
              (mkResponse (Some [mkCandidate (Some (mkContent (Some [])))])) [] eq_refl)
    as (ctx' & response' & t' & E & _).
  - intros c Hc. injection Hc as <-. vm_compute. reflexivity.
  - vm_compute in E. discriminate.
Qed.

(** C10: [validate] reads the first candidate only: with no first candidate
    or one without content the decision is APPROVED; the other candidates
    never change the result; and when the first candidate's text is clean
    the decision is not BLOCKED. *)
Theorem C10_validate_reads_first_candidate response lvl :
  ((candidates response = None \/ candidates response = Some [] \/
    exists cand rest, candidates response = Some (cand :: rest) /\ content cand = None) ->
   validate response lvl = (APPROVED, None)) /\
  (forall cand rest rest', candidates response = Some (cand :: rest) ->
   validate response lvl = validate (mkResponse (Some (cand :: rest'))) lvl) /\
  (forall cand rest, candidates response = Some (cand :: rest) ->
   (forall c, content cand = Some c -> has_match piiRegex None (content_text c) = false) ->
   fst (validate response lvl) <> BLOCKED).
Proof.
  unfold validate, first_content. split; [|split].
  - intros [H|[H|(cand & rest & H & Hc)]]; rewrite H; [reflexivity|reflexivity|].
    rewrite Hc. reflexivity.
  - intros cand rest rest' H. rewrite H. reflexivity.
  - intros cand rest H Hc. rewrite H. destruct (content cand) as [c|] eqn:E; [|discriminate].
    rewrite (Hc c eq_refl). destruct (RiskLevel_eqb lvl HIGH); discriminate.
Qed.

Lemma C10_witness :
  let first := mkCandidate (Some (mkContent (Some [mkPart (Some "All good.") None]))) in
  let second := mkCandidate (Some (mkContent (Some [mkPart (Some "mail bob@corp.com") None]))) in
  has_match piiRegex None (content_text (mkContent (Some [mkPart (Some "mail bob@corp.com") None])))
    = true /\
  fst (validate (mkResponse (Some [first; second])) HIGH) <> BLOCKED.
Proof.
  cbv zeta. split; [vm_compute; reflexivity|].
  refine (proj2 (proj2 (C10_validate_reads_first_candidate
    (mkResponse (Some
       [mkCandidate (Some (mkContent (Some [mkPart (Some "All good.") None])));
        mkCandidate (Some (mkContent (Some [mkPart (Some "mail bob@corp.com") None])))]))
    HIGH))
    (mkCandidate (Some (mkContent (Some [mkPart (Some "All good.") None]))))
    [mkCandidate (Some (mkContent (Some [mkPart (Some "mail bob@corp.com") None])))]
    eq_refl _).
  intros c Hc. injection Hc as <-. vm_compute. reflexivity.
Defined.

(** ** Classification *)

(** C4 (corrected): the HR keyword is the literal ["fire employee"], so
    ["I need to fire employee"] is (HIGH, "HR Decision") while
    ["I need to fire an employee"] is (LOW, "General"); ["hello world"] is
    (LOW, "General"); and [classify] is the first-matching-rule table over the
    lower-cased, space-joined text of the fragments, in the order
    proprietary, HR, financial, medical, with (LOW, "General") when no rule
    matches. *)
Theorem C4_classify_first_matching_rule :
  classify [mkPart (Some "I need to fire employee") None] = (HIGH, "HR Decision") /\
  classify [mkPart (Some "I need to fire an employee") None] = (LOW, "General") /\
  classify [mkPart (Some "hello world") None] = (LOW, "General") /\
  forall parts, classify parts = classify_by_rules parts.
Proof.
  split; [vm_compute; reflexivity|]. split; [vm_compute; reflexivity|].
  split; [vm_compute; reflexivity|].
  intros parts. unfold classify, classify_by_rules, rule_table. cbv zeta.
  destruct (ClassifierFacts.buffer_eq parts) as [E|E]; rewrite E;
    [|rewrite !ClassifierFacts.has_sp by (vm_compute; discriminate)];
    cbn [first_rule existsb]; rewrite !orb_false_r, !orb_assoc;
    repeat match goal with |- context [if ?c then _ else _] => destruct c end;
    reflexivity.
Qed.

(** The example of the spec, with an article between the two words. *)
Lemma C4_counterexample :
  classify [mkPart (Some "I need to fire an employee") None] <> (HIGH, "HR Decision").
Proof. vm_compute. discriminate. Qed.

(** ** Redaction *)

(** C7: [wasRedacted] is true exactly when the returned parts differ from
    the input (a replacement always changes the text); when no pattern
    matches the text of any part, [redact] returns the input itself,
    [wasRedacted = false] and no justification; and, with the parts as
    objects of a heap, [redact] only allocates: every object of the old heap
    is unchanged, and the array it returns reads back as [redactedParts]. *)
Theorem C7_redact_frame_and_flag ps :
  (wasRedacted (redact ps) = true <-> redactedParts (redact ps) <> ps) /\
  ((forall part t, In part ps -> truthy (text part) = Some t -> clean_text t) ->
   redact ps = mkRedactResult ps false []) /\
  (forall h arr, read h arr = ps -> (forall l, In l arr -> l < List.length h) ->
   let '(h', arr', st') := redact_in_store h arr (false, []) in
   (exists ext, h' = h ++ ext) /\ read h' arr' = redactedParts (redact ps) /\
   st' = (wasRedacted (redact ps), justifications (redact ps))).
Proof.
  unfold redact. destruct (redact_map ps (false, [])) as [rp [w j]] eqn:E. simpl.
  split; [|split].
  - destruct (RedactChange.redact_map_spec _ _ _ _ E) as [[A B]|[A B]]; simpl in A; subst.
    + split; [discriminate|]. intros H; exfalso; apply H; reflexivity.
    + split; auto.
  - intros H. rewrite (RedactChange.redact_map_noop ps (false, []) H) in E.
    injection E as <- <- <-. reflexivity.
  - intros h arr Hr Hin.
    pose proof (RedactFrame.redact_in_store_spec arr h (false, []) Hin) as S.
    destruct (redact_in_store h arr (false, [])) as [[h' arr'] st'].
    destruct S as (Hx & _ & Hm). rewrite Hr, E in Hm. injection Hm as Hm1 Hm2.
    split; [exact Hx|]. split; [symmetry; exact Hm1|symmetry; exact Hm2].
Qed.

Lemma C7_witness :
  let p := mkPart (Some "Call 555-123-4567 or mail a@b.co") None in
  read [p] [0] = [p] /\ (forall l, In l [0] -> l < List.length [p]) /\
  let '(h', arr', st') := redact_in_store [p] [0] (false, []) in
  (exists ext, h' = [p] ++ ext) /\ read h' arr' = redactedParts (redact [p]) /\
  st' = (wasRedacted (redact [p]), justifications (redact [p])).
Proof.
  cbv zeta. split; [reflexivity|].
  assert (Hin : forall l, In l [0] -> l < List.length
            [mkPart (Some "Call 555-123-4567 or mail a@b.co") None]).
  { intros l [<-|[]]. simpl. lia. }
  split; [exact Hin|].
  exact (proj2 (proj2 (C7_redact_frame_and_flag
           [mkPart (Some "Call 555-123-4567 or mail a@b.co") None]))
           [mkPart (Some "Call 555-123-4567 or mail a@b.co") None] [0] eq_refl Hin).
Defined.

(** C8: redacting the parts [redact] returned gives them back unchanged,
    with [wasRedacted = false] and no justification; and no placeholder has
    a match of any of the five patterns. *)
Theorem C8_redact_idempotent ps :
  redact (redactedParts (redact ps)) = mkRedactResult (redactedParts (redact ps)) false [] /\
  Forall (fun ph => Forall (fun r => has_match r None (list_ascii_of_string ph) = false)
            [emailRegex; phoneRegex; employeeIdRegex; creditCardRegex; projectCodewordRegex])
    ["[REDACTED_EMAIL]"; "[REDACTED_PHONE]"; "[REDACTED_EMP_ID]";
     "[REDACTED_CREDIT_CARD]"; "[REDACTED_PROJECT_CODE]"].
Proof.
  split.
  - destruct (redact_map ps (false, [])) as [rp [w j]] eqn:E.
    assert (Hr : redact ps = mkRedactResult rp w j) by (unfold redact; rewrite E; reflexivity).
    rewrite Hr. simpl. unfold redact. rewrite (RedactIdem.redact_map_fix _ _ _ _ (false, []) E). reflexivity.
  - repeat match goal with
    | |- Forall _ [] => constructor
    | |- Forall _ (_ :: _) => constructor; cbv beta
    | |- has_match _ _ _ = false => vm_compute; reflexivity
    end.
Qed.

End GovClaims.

(** * Further properties of the code *)

(** ** [redact]: shape, output and bookkeeping *)

Module RedactMore.
Import Regex Types PIIFilter RedactIdem RedactChange.

Definition labels : list string :=
  ["Email PII detected"; "Phone PII detected"; "Employee ID detected";
   "Credit Card detected"; "Project Codeword detected"].

Lemma redact_part_shape part st :
  let part' := fst (redact_part part st) in
  payload part' = payload part /\ (truthy (text part) = None -> part' = part) /\
  (forall t, truthy (text part) = Some t -> exists t', text part' = Some t').
Proof.
  unfold redact_part. destruct (truthy (text part)) as [t|] eqn:Et.
  - destruct (redact_text (text_chars t) st) as [nt s1]. simpl.
    split; [reflexivity|]. split; [discriminate|]. intros _ _. eexists; reflexivity.
  - simpl. split; [reflexivity|]. split; [reflexivity|]. discriminate.
Qed.

Lemma redact_map_shape ps : forall st,
  Forall2 (fun p p' => payload p' = payload p /\ (truthy (text p) = None -> p' = p) /\
             (forall t, truthy (text p) = Some t -> exists t', text p' = Some t'))
    ps (fst (redact_map ps st)).
Proof.
  induction ps as [|part rest IH]; intros st; simpl; [constructor|].
  pose proof (redact_part_shape part st) as Hs.
  destruct (redact_part part st) as [part' s1].
  specialize (IH s1). destruct (redact_map rest s1) as [rest' s2]. simpl in *.
  constructor; assumption.
Qed.

Lemma redact_map_out_clean ps : forall st p t,
  In p (fst (redact_map ps st)) -> truthy (text p) = Some t -> clean_text t.
Proof.
  induction ps as [|part rest IH]; intros st p t Hin Ht; simpl in Hin; [contradiction|].
  destruct (redact_part part st) as [part' s1] eqn:Ep.
  specialize (IH s1). destruct (redact_map rest s1) as [rest' s2]. simpl in Hin.
  destruct Hin as [<-|Hin]; [|exact (IH p t Hin Ht)].
  unfold redact_part in Ep. destruct (truthy (text part)) as [u|] eqn:Eu.
  - destruct (redact_text (text_chars u) st) as [nt s'] eqn:Er. injection Ep as <- _.
    cbn [text] in Ht. apply truthy_some in Ht. injection Ht as <-.
    unfold clean_text, text_chars. rewrite list_ascii_of_string_of_list_ascii.
    apply (redact_text_clean _ _ _ _ Er).
  - injection Ep as <- _. congruence.
Qed.

(** The invariant of the closure state [(wasRedacted, justifications)]. *)
Definition st_inv (st : RState) : Prop :=
  (fst st = false <-> snd st = []) /\ NoDup (snd st) /\ incl (snd st) labels.

Lemma existsb_eqb_in l j : existsb (String.eqb l) j = true <-> In l j.
Proof.
  rewrite existsb_exists. split.
  - intros [x [Hx E]]. apply String.eqb_eq in E. subst. exact Hx.
  - intros H. exists l. split; [exact H|apply String.eqb_refl].
Qed.

Lemma pii_step_inv rx ph l t st : In l labels -> st_inv st ->
  st_inv (snd (pii_step rx ph l t st)).
Proof.
  intros Hl. destruct st as [w j]. unfold pii_step, st_inv. simpl.
  intros (Hw & Hnd & Hinc).
  destruct (has_match rx None t); simpl; [|auto].
  destruct (existsb (String.eqb l) j) eqn:Ee.
  - apply existsb_eqb_in in Ee. split; [|auto].
    split; [discriminate|]. intros ->. contradiction.
  - assert (Hn : ~ In l j) by (rewrite <- existsb_eqb_in, Ee; discriminate).
    split; [split; [discriminate|intros E; destruct j; discriminate]|]. split.
    + apply NoDup_app; auto.
      * repeat constructor. intros [].
      * intros x Hx [<-|[]]. contradiction.
    + intros x Hx. apply in_app_or in Hx as [Hx|[<-|[]]]; auto.
Qed.

Lemma redact_text_inv t st : st_inv st -> st_inv (snd (redact_text t st)).
Proof.
  intros H. unfold redact_text.
  pose proof (pii_step_inv emailRegex "[REDACTED_EMAIL]" "Email PII detected" t st
                ltac:(simpl; tauto) H) as H1.
  destruct (pii_step emailRegex _ _ t st) as [t1 s1].
  pose proof (pii_step_inv phoneRegex "[REDACTED_PHONE]" "Phone PII detected" t1 s1
                ltac:(simpl; tauto) H1) as H2.
  destruct (pii_step phoneRegex _ _ t1 s1) as [t2 s2].
  pose proof (pii_step_inv employeeIdRegex "[REDACTED_EMP_ID]" "Employee ID detected" t2 s2
                ltac:(simpl; tauto) H2) as H3.
  destruct (pii_step employeeIdRegex _ _ t2 s2) as [t3 s3].
  pose proof (pii_step_inv creditCardRegex "[REDACTED_CREDIT_CARD]" "Credit Card detected" t3 s3
                ltac:(simpl; tauto) H3) as H4.
  destruct (pii_step creditCardRegex _ _ t3 s3) as [t4 s4].
  apply pii_step_inv; [simpl; tauto|exact H4].
Qed.

Lemma redact_map_inv ps : forall st, st_inv st -> st_inv (snd (redact_map ps st)).
Proof.
  induction ps as [|part rest IH]; intros st H; simpl; [exact H|].
  assert (H1 : st_inv (snd (redact_part part st))).
  { unfold redact_part. destruct (truthy (text part)) as [t|]; [|exact H].
    pose proof (redact_text_inv (text_chars t) st H) as Ht.
    destruct (redact_text (text_chars t) st); exact Ht. }
  destruct (redact_part part st) as [part' s1]. simpl in H1.
  specialize (IH s1 H1). destruct (redact_map rest s1) as [rest' s2]. exact IH.
Qed.

(** The text [redact] produces does not depend on the closure state, and
    the flag is or-ed in. *)
Lemma redact_text_indep t w j w' j' :
  fst (redact_text t (w, j)) = fst (redact_text t (w', j')) /\
  fst (snd (redact_text t (w, j))) = w || fst (snd (redact_text t (false, j'))).
Proof.
  unfold redact_text, pii_step.
  repeat match goal with |- context [has_match ?r None ?x] =>
    destruct (has_match r None x) end;
  simpl; rewrite ?orb_true_r, ?orb_false_r; auto.
Qed.

Lemma redact_part_indep part w j w' j' :
  fst (redact_part part (w, j)) = fst (redact_part part (w', j')) /\
  fst (snd (redact_part part (w, j))) = w || fst (snd (redact_part part (false, j'))).
Proof.
  unfold redact_part. destruct (truthy (text part)) as [t|].
  - destruct (redact_text_indep (text_chars t) w j w' j') as [A B].
    destruct (redact_text (text_chars t) (w, j)) as [n1 [w1 j1]].
    destruct (redact_text (text_chars t) (w', j')) as [n2 [w2 j2]].
    destruct (redact_text (text_chars t) (false, j')) as [n3 [w3 j3]].
    simpl in *. subst. auto.
  - simpl. rewrite orb_false_r. auto.
Qed.

Lemma redact_map_indep ps : forall w j w' j',
  fst (redact_map ps (w, j)) = fst (redact_map ps (w', j')) /\
  fst (snd (redact_map ps (w, j))) = w || fst (snd (redact_map ps (false, j'))).
Proof.
  induction ps as [|part rest IH]; intros w j w' j'; simpl; [rewrite orb_false_r; auto|].
  destruct (redact_part_indep part w j w' j') as [A1 B1].
  destruct (redact_part_indep part false j' false j') as [_ B3].
  destruct (redact_part part (w, j)) as [p1 [w1 j1]].
  destruct (redact_part part (w', j')) as [p2 [w2 j2]].
  destruct (redact_part part (false, j')) as [p3 [w3 j3]].
  simpl in A1, B1, B3. subst p2.
  destruct (IH w1 j1 w2 j2) as [A2 _]. destruct (IH w1 j1 false j') as [_ B2].
  destruct (IH w3 j3 false j') as [_ B4].
  destruct (redact_map rest (w1, j1)) as [r1 [x1 y1]].
  destruct (redact_map rest (w2, j2)) as [r2 [x2 y2]].
  destruct (redact_map rest (w3, j3)) as [r3 [x3 y3]].
  destruct (redact_map rest (false, j')) as [r4 [x4 y4]].
  simpl in *. split; [congruence|].
  rewrite B2, B4, B1. destruct w, w3, x4; reflexivity.
Qed.

Lemma redact_map_app ps1 ps2 : forall st,
  redact_map (ps1 ++ ps2) st =
  let '(a, st1) := redact_map ps1 st in
  let '(b, st2) := redact_map ps2 st1 in (a ++ b, st2).
Proof.
  induction ps1 as [|part rest IH]; intros st; simpl.
  - destruct (redact_map ps2 st); reflexivity.
  - destruct (redact_part part st) as [p1 s1]. rewrite IH.
    destruct (redact_map rest s1) as [a st1]. destruct (redact_map ps2 st1). reflexivity.
Qed.


End RedactMore.

(** ** [classify]: what it reads, and monotonicity *)

Module ClassifyMore.
Import Types RiskClassifier ClassifierFacts.

Lemma lower_concat F :
  toLowerCase (List.concat (map (fun x => x ++ sp) F)) =
  List.concat (map (fun x => x ++ sp) (map toLowerCase F)).
Proof.
  induction F as [|x F IH]; simpl; [reflexivity|].
  unfold toLowerCase in *. rewrite !map_app, IH. reflexivity.
Qed.

Lemma classify_lower ps :
  toLowerCase (combine ps []) =
  List.concat (map (fun x => x ++ sp) (map toLowerCase (fragment_texts ps))).
Proof. rewrite combine_concat. simpl. apply lower_concat. Qed.

Lemma fragment_texts_app ps qs :
  fragment_texts (ps ++ qs) = fragment_texts ps ++ fragment_texts qs.
Proof.
  induction ps as [|p ps IH]; simpl; [reflexivity|].
  destruct (truthy (text p)); rewrite IH; reflexivity.
Qed.

Lemma buffer_app ps qs :
  toLowerCase (combine (ps ++ qs) []) =
  toLowerCase (combine ps []) ++ toLowerCase (combine qs []).
Proof.
  rewrite !classify_lower, fragment_texts_app, !map_app, concat_app. reflexivity.
Qed.

(** The keyword test of the four branches of [classify]. *)
Definition hit (B : list ascii) : bool :=
  (has B "confidential" || has B "secret" || has B "proprietary") ||
  (has B "hr decision" || has B "fire employee" || has B "hiring") ||
  (has B "financial advice" || has B "invest" || has B "stock") ||
  (has B "medical" || has B "diagnosis").

Lemma classify_high ps : fst (classify ps) = HIGH <-> hit (toLowerCase (combine ps [])) = true.
Proof.
  unfold classify, hit. cbv zeta.
  repeat match goal with |- context [has ?B ?k] => destruct (has B k); simpl end;
  split; (reflexivity || discriminate).
Qed.

Lemma has_app_l A B k : has A k = true -> has (A ++ B) k = true.
Proof.
  unfold has. rewrite !includes_iff. intros [a [b E]]. exists a, (b ++ B).
  rewrite E, <- !app_assoc. reflexivity.
Qed.

Lemma has_app_r A B k : has B k = true -> has (A ++ B) k = true.
Proof.
  unfold has. rewrite !includes_iff. intros [a [b E]]. exists (A ++ a), b.
  rewrite E, <- !app_assoc. reflexivity.
Qed.

Lemma hit_mono (f : list ascii -> list ascii) B :
  (forall k, has B k = true -> has (f B) k = true) -> hit B = true -> hit (f B) = true.
Proof.
  intros Hf. unfold hit. rewrite !orb_true_iff. intros H.
  repeat match type of H with
  | _ \/ _ => destruct H as [H|H]
  end; apply Hf in H; auto 10.
Qed.

End ClassifyMore.

(** ** [interceptResponse]: frame and justification *)

Module ResponseMore.
Import Regex Types AuditLogger OutputGuardrail GovernanceEngine ResponseFacts.

Lemma just_ext (jc : option string) r j : jc = Some j -> j <> EmptyString ->
  exists s, Some (String.append (match truthy jc with
                                 | Some j => String.append j "; "
                                 | None => EmptyString end) r) = Some (String.append j s).
Proof.
  intros -> Hne. unfold truthy. destruct (String.eqb j EmptyString) eqn:E.
  - apply String.eqb_eq in E. contradiction.
  - exists (String.append "; " r). rewrite append_assoc. reflexivity.
Qed.

Lemma response_frame ctx response t :
  let '(ctx', _, _) := interceptResponse ctx response t in
  userId ctx' = userId ctx /\ requestId ctx' = requestId ctx /\
  timestamp ctx' = timestamp ctx /\ originalInput ctx' = originalInput ctx /\
  redactedInput ctx' = redactedInput ctx /\ riskLevel ctx' = riskLevel ctx /\
  riskCategory ctx' = riskCategory ctx /\ modelVersion ctx' = modelVersion ctx /\
  modelParams ctx' = modelParams ctx /\
  guardrailDecision ctx' = Some (fst (validate response (level_or_low (riskLevel ctx)))) /\
  (forall j, justification ctx = Some j -> j <> EmptyString ->
     exists s, justification ctx' = Some (String.append j s)) /\
  (snd (validate response (level_or_low (riskLevel ctx))) = None ->
     justification ctx' = justification ctx).
Proof.
  unfold interceptResponse.
  change (riskLevel (set_output ctx (Some response))) with (riskLevel ctx).
  destruct (validate response (level_or_low (riskLevel ctx))) as [d r].
  cbn [fst snd].
  destruct r as [r|];
    [change (justification (set_decision (set_output ctx (Some response)) (Some d)))
       with (justification ctx)|];
    destruct d; try destruct (add_warning _ _);
    cbn [set_output set_decision set_justification userId requestId timestamp
         originalInput redactedInput riskLevel riskCategory modelVersion modelParams
         guardrailDecision justification];
    (split; [reflexivity|]); (split; [reflexivity|]); (split; [reflexivity|]);
    (split; [reflexivity|]); (split; [reflexivity|]); (split; [reflexivity|]);
    (split; [reflexivity|]); (split; [reflexivity|]); (split; [reflexivity|]);
    (split; [reflexivity|]);
    first
      [ split; [intros j Hj Hne; exact (ResponseMore.just_ext _ r j Hj Hne)|discriminate]
      | split; [intros j -> _; exists EmptyString; rewrite ResponseFacts.append_empty_r;
                reflexivity|reflexivity] ].
Qed.

Lemma response_trail ctx response t :
  let '(ctx', _, t') := interceptResponse ctx response t in t' = t ++ [entry_of ctx'].
Proof.
  unfold interceptResponse, log.
  change (riskLevel (set_output ctx (Some response))) with (riskLevel ctx).
  destruct (validate response (level_or_low (riskLevel ctx))) as [d r].
  destruct d; destruct r; try destruct (add_warning _ _); reflexivity.
Qed.

End ResponseMore.

(** ** [interceptRequest]: identity fields and justification *)

Module RequestMore.
Import Types AuditLogger GovernanceEngine.

Lemma request_fields policies env input mv mp ag t :
  let ctx := rq_context (fst (interceptRequest policies env input mv mp ag t)) in
  userId ctx = match truthy (env_USER env) with Some u => u | None => "unknown_user" end /\
  requestId ctx = env_uuid env /\ timestamp ctx = env_now env /\
  originalInput ctx = input /\ output ctx = None /\
  justification ctx =
    Some (if piiRedaction policies && PIIFilter.wasRedacted (PIIFilter.redact input)
          then String.append "PII Redacted: "
                 (join_str ", " (PIIFilter.justifications (PIIFilter.redact input)))
          else EmptyString).
Proof.
  unfold interceptRequest. cbv zeta.
  destruct (piiRedaction policies);
    [destruct (PIIFilter.redact input) as [rp w j]; cbn [PIIFilter.redactedParts
       PIIFilter.wasRedacted PIIFilter.justifications]|];
    match goal with |- context [RiskClassifier.classify ?ri] =>
      destruct (RiskClassifier.classify ri) as [lvl cat] end;
    destruct (blockHighRisk policies); destruct lvl; destruct ag as [[]|];
    simpl; repeat split.
Qed.

Lemma truthy_ne o u : truthy o = Some u -> u <> EmptyString.
Proof.
  destruct o as [s|]; simpl; [|discriminate].
  destruct (String.eqb s EmptyString) eqn:E; [discriminate|].
  intros H. injection H as <-. intros ->. discriminate.
Qed.

End RequestMore.

(** ** The values [classify] and [validate] can return *)

Module ValueFacts.
Import Regex Types RiskClassifier OutputGuardrail.

Lemma classify_cases ps :
  classify ps = (HIGH, "Proprietary Information") \/ classify ps = (HIGH, "HR Decision") \/
  classify ps = (HIGH, "Financial Advice") \/ classify ps = (HIGH, "Medical Advice") \/
  classify ps = (LOW, "General").
Proof.
  unfold classify. cbv zeta.
  repeat match goal with |- context [if ?c then _ else _] => destruct c end; auto 6.
Qed.

Lemma validate_cases response lvl :
  validate response lvl = (APPROVED, None) \/
  validate response lvl = (BLOCKED, Some "PII detected in output") \/
  (validate response lvl = (FLAGGED_FOR_REVIEW, Some "High risk use case requires human review")
   /\ lvl = HIGH).
Proof.
  unfold validate. destruct (first_content response); [|auto].
  destruct (has_match piiRegex None (content_text c)); [auto|].
  destruct lvl; simpl; auto.
Qed.

End ValueFacts.

(** ** [confirmHighRiskAction]: the answers it accepts *)

Module ConfirmFacts.
Import RiskClassifier.

Ltac all_chars c :=
  destruct c as [[] [] [] [] [] [] [] []]; vm_compute; intros H;
  first [ discriminate | left; reflexivity | right; reflexivity ].

Lemma lower_y c : lower_char c = "y"%char -> c = "y"%char \/ c = "Y"%char.
Proof. all_chars c. Qed.

Lemma lower_e c : lower_char c = "e"%char -> c = "e"%char \/ c = "E"%char.
Proof. all_chars c. Qed.

Lemma lower_s c : lower_char c = "s"%char -> c = "s"%char \/ c = "S"%char.
Proof. all_chars c. Qed.

Lemma lowered_eq a w :
  String.eqb (string_of_list_ascii (toLowerCase (list_ascii_of_string a))) w = true ->
  toLowerCase (list_ascii_of_string a) = list_ascii_of_string w.
Proof.
  intros H. apply String.eqb_eq in H. rewrite <- H.
  rewrite list_ascii_of_string_of_list_ascii. reflexivity.
Qed.

End ConfirmFacts.

(** ** Texts without key characters *)

Module KeyFree.
Import Regex RegexFacts MatchFacts AnalysisFacts Types PIIFilter RedactChange.

Lemma no_key_no_match r : has_key r = true -> forall s p,
  (forall c, In c s -> keyc c = false) -> has_match r p s = false.
Proof.
  intros Hk. induction s as [|x s IH]; intros p Hs.
  - simpl. destruct (exec r p []) as [[p' rest]|] eqn:E; [|reflexivity].
    apply exec_sound in E as [w [Hw [HM _]]].
    destruct (has_key_sound _ _ _ _ HM Hk) as [c [Hc Hkc]].
    destruct w; [contradiction|discriminate].
  - simpl. apply orb_false_iff. split.
    + destruct (exec r p (x :: s)) as [[p' rest]|] eqn:E; [|reflexivity].
      apply exec_sound in E as [w [Hw [HM _]]].
      destruct (has_key_sound _ _ _ _ HM Hk) as [c [Hc Hkc]].
      rewrite Hs in Hkc; [discriminate|]. rewrite Hw. apply in_or_app. left. exact Hc.
    + apply IH. intros c Hc. apply Hs. right. exact Hc.
Qed.

Lemma key_free_clean s :
  (forall c, In c (text_chars s) -> keyc c = false) -> clean_text s.
Proof.
  intros H. unfold clean_text.
  repeat split; apply no_key_no_match; solve [vm_compute; reflexivity | exact H].
Qed.

End KeyFree.

(** * Properties of the code beyond the claims *)

Module GovExtra.
Import Regex Types PIIFilter RiskClassifier OutputGuardrail AuditLogger GovernanceEngine
  Interactive Client.

(** ** [PIIFilter.redact] *)

(** X1: [redact] returns one part for each input part, in order; every
    returned part keeps the non-text fields of its input part; a part whose
    text is absent or empty is returned as it is; a part with a non-empty
    text gets a text again. *)
Theorem X1_redact_keeps_parts ps :
  List.length (redactedParts (redact ps)) = List.length ps /\
  Forall2 (fun p p' => payload p' = payload p /\ (truthy (text p) = None -> p' = p) /\
             (forall t, truthy (text p) = Some t -> exists t', text p' = Some t'))
    ps (redactedParts (redact ps)).
Proof.
  assert (H : redactedParts (redact ps) = fst (redact_map ps (false, []))).
  { unfold redact. destruct (redact_map ps (false, [])) as [rp [w j]]. reflexivity. }
  rewrite H. pose proof (RedactMore.redact_map_shape ps (false, [])) as F.
  split; [symmetry; exact (Forall2_length F)|exact F].
Qed.

(** X2: no text of the parts [redact] returns has a match of any of the
    five patterns (email, phone, employee id, credit card, project
    codeword). *)
Theorem X2_redact_output_clean ps p t :
  In p (redactedParts (redact ps)) -> truthy (text p) = Some t ->
  has_match emailRegex None (text_chars t) = false /\
  has_match phoneRegex None (text_chars t) = false /\
  has_match employeeIdRegex None (text_chars t) = false /\
  has_match creditCardRegex None (text_chars t) = false /\
  has_match projectCodewordRegex None (text_chars t) = false.
Proof.
  assert (H : redactedParts (redact ps) = fst (redact_map ps (false, []))).
  { unfold redact. destruct (redact_map ps (false, [])) as [rp [w j]]. reflexivity. }
  rewrite H. apply RedactMore.redact_map_out_clean.
Qed.

Lemma X2_witness :
  In (mkPart (Some "Mail [REDACTED_EMAIL] or call [REDACTED_PHONE]") None)
     (redactedParts (redact [mkPart (Some "Mail jo@x.io or call 555.123.4567") None])) /\
  truthy (Some "Mail [REDACTED_EMAIL] or call [REDACTED_PHONE]") =
    Some "Mail [REDACTED_EMAIL] or call [REDACTED_PHONE]" /\
  has_match emailRegex None (text_chars "Mail [REDACTED_EMAIL] or call [REDACTED_PHONE]") = false.
Proof.
  assert (Hin : In (mkPart (Some "Mail [REDACTED_EMAIL] or call [REDACTED_PHONE]") None)
     (redactedParts (redact [mkPart (Some "Mail jo@x.io or call 555.123.4567") None])))
    by (vm_compute; left; reflexivity).
  split; [exact Hin|]. split; [reflexivity|].
  exact (proj1 (X2_redact_output_clean _ _ _ Hin eq_refl)).
Defined.

(** X3: [wasRedacted] is true exactly when the list of justifications is
    non-empty; the list never repeats a label, and holds only the five
    labels of the code, so it has at most five entries. *)
Theorem X3_redact_justifications ps :
  (wasRedacted (redact ps) = true <-> justifications (redact ps) <> []) /\
  NoDup (justifications (redact ps)) /\
  incl (justifications (redact ps))
    ["Email PII detected"; "Phone PII detected"; "Employee ID detected";
     "Credit Card detected"; "Project Codeword detected"] /\
  List.length (justifications (redact ps)) <= 5.
Proof.
  assert (I0 : RedactMore.st_inv (false, [])).
  { split; [split; reflexivity|]. split; [constructor|intros x []]. }
  pose proof (RedactMore.redact_map_inv ps _ I0) as I.
  unfold redact. destruct (redact_map ps (false, [])) as [rp [w j]].
  destruct I as (Hw & Hnd & Hinc). simpl in *.
  split; [|split; [exact Hnd|split; [exact Hinc|]]].
  - destruct w; split; intros H.
    + intros E. apply Hw in E. discriminate.
    + reflexivity.
    + discriminate.
    + exfalso. apply H, Hw. reflexivity.
  - change 5 with (List.length RedactMore.labels). apply NoDup_incl_length; assumption.
Qed.

(** X4: redacting a concatenation of part lists gives the concatenation of
    the redacted lists, and [wasRedacted] is the disjunction of the two:
    each part is redacted on its own. *)
Theorem X4_redact_app ps1 ps2 :
  redactedParts (redact (ps1 ++ ps2)) =
    redactedParts (redact ps1) ++ redactedParts (redact ps2) /\
  wasRedacted (redact (ps1 ++ ps2)) = wasRedacted (redact ps1) || wasRedacted (redact ps2).
Proof.
  unfold redact. rewrite RedactMore.redact_map_app.
  destruct (redact_map ps1 (false, [])) as [a [w1 j1]] eqn:E1.
  destruct (RedactMore.redact_map_indep ps2 w1 j1 false []) as [A B].
  destruct (redact_map ps2 (w1, j1)) as [b [w2 j2]].
  destruct (redact_map ps2 (false, [])) as [b' [w3 j3]].
  simpl in *. subst. split; reflexivity.
Qed.


(** ** [RiskClassifier.classify] *)

(** X5: [classify] reads only the non-empty texts of the parts, lower-cased:
    two part lists whose non-empty texts agree up to the case of their
    letters are classified alike, whatever other parts they hold. *)
Theorem X5_classify_reads_lowercase_text ps qs :
  map toLowerCase (fragment_texts ps) = map toLowerCase (fragment_texts qs) ->
  classify ps = classify qs.
Proof.
  intros H. unfold classify. rewrite !ClassifyMore.classify_lower, H. reflexivity.
Qed.

Lemma X5_witness :
  map toLowerCase (fragment_texts [mkPart (Some "Time to FIRE Employee #4") None]) =
  map toLowerCase (fragment_texts [mkPart None (Some "inlineData"); mkPart (Some "") None;
                                   mkPart (Some "time to fire employee #4") None]) /\
  classify [mkPart (Some "Time to FIRE Employee #4") None] =
  classify [mkPart None (Some "inlineData"); mkPart (Some "") None;
            mkPart (Some "time to fire employee #4") None].
Proof.
  assert (H : map toLowerCase (fragment_texts [mkPart (Some "Time to FIRE Employee #4") None]) =
    map toLowerCase (fragment_texts [mkPart None (Some "inlineData"); mkPart (Some "") None;
                                     mkPart (Some "time to fire employee #4") None]))
    by (vm_compute; reflexivity).
  split; [exact H|exact (X5_classify_reads_lowercase_text _ _ H)].
Defined.

(** X6: a HIGH classification is kept when more parts are added before or
    after: extra text can change the category, never lower the level. *)
Theorem X6_classify_high_monotone ps qs :
  fst (classify ps) = HIGH ->
  fst (classify (ps ++ qs)) = HIGH /\ fst (classify (qs ++ ps)) = HIGH.
Proof.
  rewrite !ClassifyMore.classify_high, !ClassifyMore.buffer_app. intros H. split.
  - apply (ClassifyMore.hit_mono (fun B => B ++ toLowerCase (combine qs []))); [|exact H].
    intros k. apply ClassifyMore.has_app_l.
  - apply (ClassifyMore.hit_mono (fun B => toLowerCase (combine qs []) ++ B)); [|exact H].
    intros k. apply ClassifyMore.has_app_r.
Qed.

Lemma X6_witness :
  fst (classify [mkPart (Some "Should I buy this stock?") None]) = HIGH /\
  fst (classify ([mkPart (Some "Should I buy this stock?") None] ++
                 [mkPart (Some "It is a secret.") None])) = HIGH.
Proof.
  assert (H : fst (classify [mkPart (Some "Should I buy this stock?") None]) = HIGH)
    by (vm_compute; reflexivity).
  split; [exact H|exact (proj1 (X6_classify_high_monotone _
                               [mkPart (Some "It is a secret.") None] H))].
Defined.


(** ** [GovernanceEngine.interceptResponse] *)

(** X7: [interceptResponse] changes only the [output], [guardrailDecision]
    and [justification] of the context: the decision recorded is the one
    [validate] returns for the context's level (LOW when absent); a
    non-empty justification from the request phase is kept as a prefix,
    and it is left as it is when [validate] gives no reason. *)
Theorem X7_response_context_frame ctx response t :
  let '(ctx', _, _) := interceptResponse ctx response t in
  userId ctx' = userId ctx /\ requestId ctx' = requestId ctx /\
  timestamp ctx' = timestamp ctx /\ originalInput ctx' = originalInput ctx /\
  redactedInput ctx' = redactedInput ctx /\ riskLevel ctx' = riskLevel ctx /\
  riskCategory ctx' = riskCategory ctx /\ modelVersion ctx' = modelVersion ctx /\
  modelParams ctx' = modelParams ctx /\
  guardrailDecision ctx' = Some (fst (validate response (level_or_low (riskLevel ctx)))) /\
  (forall j, justification ctx = Some j -> j <> EmptyString ->
     exists s, justification ctx' = Some (String.append j s)) /\
  (snd (validate response (level_or_low (riskLevel ctx))) = None ->
     justification ctx' = justification ctx).
Proof. exact (ResponseMore.response_frame ctx response t). Qed.

(** X8: unless [validate] flags the response for review, [interceptResponse]
    returns the response it was given, unchanged, and records it as the
    context's output; [proceed] is false exactly when the decision is
    BLOCKED. *)
Theorem X8_response_unchanged_unless_flagged ctx response t :
  fst (validate response (level_or_low (riskLevel ctx))) <> FLAGGED_FOR_REVIEW ->
  let '(ctx', out, _) := interceptResponse ctx response t in
  output ctx' = Some response /\
  exists err, out = Returned response
    (match fst (validate response (level_or_low (riskLevel ctx))) with
     | BLOCKED => false | _ => true end) err.
Proof.
  unfold interceptResponse.
  change (riskLevel (set_output ctx (Some response))) with (riskLevel ctx).
  destruct (validate response (level_or_low (riskLevel ctx))) as [d r].
  cbn [fst]. intros Hd.
  destruct d; [| |contradiction]; destruct r;
    (split; [reflexivity|eexists; reflexivity]).
Qed.

Lemma X8_witness :
  let ctx := mkContext "u" "r" 0 [] None None None None None None None None in
  let response := mkResponse (Some [mkCandidate (Some (mkContent
                    (Some [mkPart (Some "Here is the plan.") None])))]) in
  fst (validate response (level_or_low (riskLevel ctx))) <> FLAGGED_FOR_REVIEW /\
  let '(ctx', out, _) := interceptResponse ctx response [] in
  output ctx' = Some response /\
  exists err, out = Returned response
    (match fst (validate response (level_or_low (riskLevel ctx))) with
     | BLOCKED => false | _ => true end) err.
Proof.
  cbv zeta.
  assert (H : fst (validate (mkResponse (Some [mkCandidate (Some (mkContent
                    (Some [mkPart (Some "Here is the plan.") None])))]))
                (level_or_low (riskLevel
                   (mkContext "u" "r" 0 [] None None None None None None None None))))
              <> FLAGGED_FOR_REVIEW)
    by (vm_compute; discriminate).
  split; [exact H|exact (X8_response_unchanged_unless_flagged _ _ [] H)].
Defined.


(** ** A whole transaction *)

(** X9: a request that proceeds, followed by the response phase on its
    context (as the callers in [GeminiClient] do), adds exactly one audit
    entry to the trail the request started from: the request phase logs
    nothing when it proceeds.  That entry's user id is never empty
    ([USER], or ["unknown_user"] when it is unset or empty), its request id
    is the [randomUUID()] of the request, and its [inputRedacted] and
    [riskLevel] are the redacted input and the level the request computed;
    with [piiRedaction] on, no text of that logged input has a match of any
    of the five patterns. *)
Theorem X9_transaction_audit policies env input mv mp ag t response r t1 ctx' out t2 :
  interceptRequest policies env input mv mp ag t = (r, t1) ->
  rq_proceed r = true ->
  interceptResponse (rq_context r) response t1 = (ctx', out, t2) ->
  let ri := if piiRedaction policies then redactedParts (redact input) else input in
  t1 = t /\
  t2 = t ++ [entry_of ctx'] /\
  e_userId (entry_of ctx') <> EmptyString /\
  e_requestId (entry_of ctx') = env_uuid env /\
  e_inputRedacted (entry_of ctx') = Some ri /\
  e_riskLevel (entry_of ctx') = Some (fst (classify ri)) /\
  (piiRedaction policies = true ->
   forall p s, In p ri -> truthy (text p) = Some s -> clean_text s).
Proof.
  intros Er Hp Eo. cbv zeta.
  pose proof (EngineFacts.request_shape policies env input mv mp ag t) as S.
  pose proof (RequestMore.request_fields policies env input mv mp ag t) as F.
  rewrite Er in S, F. cbv zeta in S, F. cbn [fst] in F.
  destruct S as (Hri & Hlv & _ & Hc). destruct F as (Hu & Hid & _).
  assert (Ht1 : t1 = t).
  { destruct (blockHighRisk policies && _); [destruct Hc as [Hc _]; congruence|].
    destruct (_ && _); [destruct Hc as [Hc _]; congruence|].
    destruct Hc as (_ & _ & _ & Hc); exact Hc. }
  subst t1.
  pose proof (ResponseMore.response_trail (rq_context r) response t) as T.
  pose proof (ResponseMore.response_frame (rq_context r) response t) as Fr.
  rewrite Eo in T, Fr.
  destruct Fr as (Fu & Fid & _ & _ & Fri & Flv & _).
  unfold entry_of; cbn [e_userId e_requestId e_inputRedacted e_riskLevel].
  split; [reflexivity|]. split; [exact T|]. split.
  - rewrite Fu, Hu. destruct (truthy (env_USER env)) as [u|] eqn:Eu;
      [exact (RequestMore.truthy_ne _ _ Eu)|discriminate].
  - split; [congruence|]. split; [congruence|]. split; [congruence|].
    intros Hpi p s Hin Hs. rewrite Hpi in Hin.
    assert (H : redactedParts (redact input) = fst (redact_map input (false, [])))
      by (unfold redact; destruct (redact_map input (false, [])) as [rp [w j]]; reflexivity).
    rewrite H in Hin. exact (RedactMore.redact_map_out_clean _ _ _ _ Hin Hs).
Qed.

Lemma X9_witness :
  let input := [mkPart (Some "Mail jo@x.io the plan") None] in
  let env := mkEnv "req-1" (Some "ana") 0 in
  let response := mkResponse (Some [mkCandidate (Some (mkContent
                    (Some [mkPart (Some "Done.") None])))]) in
  let rt := interceptRequest DEFAULT_POLICIES env input "gemini" [] None [] in
  let ro := interceptResponse (rq_context (fst rt)) response (snd rt) in
  rq_proceed (fst rt) = true /\ snd ro = [entry_of (fst (fst ro))].
Proof.
  cbv zeta.
  assert (H : rq_proceed (fst (interceptRequest DEFAULT_POLICIES
                (mkEnv "req-1" (Some "ana") 0)
                [mkPart (Some "Mail jo@x.io the plan") None] "gemini" [] None [])) = true)
    by (vm_compute; reflexivity).
  split; [exact H|].
  exact (proj1 (proj2 (X9_transaction_audit DEFAULT_POLICIES (mkEnv "req-1" (Some "ana") 0)
           [mkPart (Some "Mail jo@x.io the plan") None] "gemini" [] None []
           (mkResponse (Some [mkCandidate (Some (mkContent
              (Some [mkPart (Some "Done.") None])))])) _ _ _ _ _ eq_refl H eq_refl))).
Defined.


(** ** The callers in [GeminiClient] *)

(** X10: the governance block of [sendMessageStream] ends in one of three
    ways, chosen by the level the request phase computes on the redacted
    parts: with [blockHighRisk] on and a HIGH level, a block message and a
    [Finished] event; with a HIGH level and no approval, one
    confirmation event carrying ["HIGH"], the classifier's category and the
    request's justification, or ["High Risk Detected"] when nothing was
    redacted (never its ["UNKNOWN"] or ["Unknown Category"] defaults);
    otherwise the turn runs on the redacted parts, never on the caller's
    request, and with [piiRedaction] on no text it sends has a match of the
    five patterns. *)
Theorem X10_stream_gate policies env parts modelToUse prompt_id appr t :
  let ri := if piiRedaction policies then redactedParts (redact parts) else parts in
  let lc := classify ri in
  let just := if piiRedaction policies && wasRedacted (redact parts)
              then String.append "PII Redacted: " (join_str ", " (justifications (redact parts)))
              else "High Risk Detected" in
  stream_gate policies env parts modelToUse prompt_id appr t =
    (if blockHighRisk policies && is_high (fst lc) then
       (GateReturn [ContentEvent (String.append newline (String.append newline
          (String.append "[GOVERNANCE BLOCK]: "
             (String.append "Request blocked due to High Risk policy." newline))));
          FinishedEvent],
        snd (interceptRequest policies env parts modelToUse [("prompt_id", prompt_id)]
               (Some appr) t))
     else if is_high (fst lc) && negb appr then
       (GateReturn [GovernanceConfirmationNeeded "HIGH" (snd lc) just], t)
     else (GateRun (RedactedRequest ri), t)) /\
  (piiRedaction policies = true ->
   forall p s, In p ri -> truthy (text p) = Some s -> clean_text s).
Proof.
  cbv zeta. split.
  - unfold stream_gate, interceptRequest. cbv zeta.
    destruct (piiRedaction policies);
      [destruct (redact parts) as [rp w j]; cbn [redactedParts wasRedacted justifications]|];
      match goal with |- context [classify ?ri] =>
        destruct (ValueFacts.classify_cases ri) as [E|[E|[E|[E|E]]]]; rewrite E end;
      destruct (blockHighRisk policies); destruct appr; try destruct w; reflexivity.
  - intros Hp p s Hin Hs. rewrite Hp in Hin.
    assert (H : redactedParts (redact parts) = fst (redact_map parts (false, [])))
      by (unfold redact; destruct (redact_map parts (false, [])) as [rp [w j]]; reflexivity).
    rewrite H in Hin. exact (RedactMore.redact_map_out_clean _ _ _ _ Hin Hs).
Qed.

(** X11: the non-streaming [apiCall] never passes [approvalGranted], so a
    request whose redacted parts are classified HIGH always throws before
    the model is called: with ["Governance Block: Request blocked due to
    High Risk policy."] (and the BLOCKED audit entry) when [blockHighRisk]
    is on, and with ["Governance Block: undefined"] (and no audit entry)
    when it is off. *)
Theorem X11_apiCall_high_throws policies env contents model key gen t :
  fst (classify (if piiRedaction policies then redactedParts (redact (flat_parts contents))
                 else flat_parts contents)) = HIGH ->
  apiCall policies env contents model key gen t =
    (if blockHighRisk policies then
       (ApiThrew "Governance Block: Request blocked due to High Risk policy.", None,
        snd (interceptRequest policies env (flat_parts contents) model
               [("modelConfigKey", key)] None t))
     else (ApiThrew "Governance Block: undefined", None, t)).
Proof.
  intros Hh. unfold apiCall.
  pose proof (EngineFacts.request_shape policies env (flat_parts contents) model
                [("modelConfigKey", key)] None t) as S.
  destruct (interceptRequest policies env (flat_parts contents) model
              [("modelConfigKey", key)] None t) as [r t1].
  cbv zeta in S. rewrite Hh in S. destruct S as (_ & _ & _ & S).
  destruct (blockHighRisk policies); simpl in S.
  - destruct S as (-> & -> & _). reflexivity.
  - destruct S as (-> & -> & _ & ->). reflexivity.
Qed.

Lemma X11_witness :
  let contents := [mkContent (Some [mkPart (Some "Which stock should I invest in?") None])] in
  fst (classify (if piiRedaction DEFAULT_POLICIES
                 then redactedParts (redact (flat_parts contents))
                 else flat_parts contents)) = HIGH /\
  apiCall DEFAULT_POLICIES (mkEnv "req-1" (Some "ana") 0) contents "gemini" "chat"
    (fun _ => mkResponse None) [] = (ApiThrew "Governance Block: undefined", None, []).
Proof.
  cbv zeta.
  assert (H : fst (classify (if piiRedaction DEFAULT_POLICIES
      then redactedParts (redact (flat_parts
             [mkContent (Some [mkPart (Some "Which stock should I invest in?") None])]))
      else flat_parts [mkContent (Some [mkPart (Some "Which stock should I invest in?") None])]))
      = HIGH) by (vm_compute; reflexivity).
  split; [exact H|].
  exact (X11_apiCall_high_throws DEFAULT_POLICIES (mkEnv "req-1" (Some "ana") 0) _ "gemini"
           "chat" (fun _ => mkResponse None) [] H).
Defined.


(** X12: when the redacted parts are not classified HIGH, [apiCall] sends
    the model the caller's original [contents], not the redacted parts, and
    the response phase adds one audit entry; the model's response is
    returned unless it has an email match, in which case [apiCall] throws
    ["Governance Output Block: Output blocked: PII detected in output"]. *)
Theorem X12_apiCall_sends_original_contents policies env contents model key gen t :
  let lvl := fst (classify (if piiRedaction policies
                            then redactedParts (redact (flat_parts contents))
                            else flat_parts contents)) in
  lvl <> HIGH ->
  let '(o, sent, t') := apiCall policies env contents model key gen t in
  sent = Some contents /\ (exists ctx, t' = t ++ [entry_of ctx]) /\
  o = match fst (validate (gen contents) lvl) with
      | BLOCKED => ApiThrew "Governance Output Block: Output blocked: PII detected in output"
      | _ => ApiReturned (gen contents)
      end.
Proof.
  cbv zeta. intros Hh. unfold apiCall.
  pose proof (EngineFacts.request_shape policies env (flat_parts contents) model
                [("modelConfigKey", key)] None t) as S.
  destruct (interceptRequest policies env (flat_parts contents) model
              [("modelConfigKey", key)] None t) as [r t1].
  cbv zeta in S. destruct S as (_ & Hlv & _ & S).
  assert (Hi : is_high (fst (classify (if piiRedaction policies
             then redactedParts (redact (flat_parts contents)) else flat_parts contents)))
             = false)
    by (destruct (fst (classify _)); [reflexivity|reflexivity|contradiction|reflexivity]).
  rewrite Hi, andb_false_r in S. simpl in S. destruct S as (-> & _ & _ & ->).
  cbn [negb]. unfold interceptResponse.
  change (riskLevel (set_output (rq_context r) (Some (gen contents))))
    with (riskLevel (rq_context r)).
  rewrite Hlv. cbn [level_or_low].
  destruct (ValueFacts.validate_cases (gen contents)
              (fst (classify (if piiRedaction policies
                              then redactedParts (redact (flat_parts contents))
                              else flat_parts contents))))
    as [E|[E|[_ E]]]; [rewrite E| rewrite E|contradiction];
    (split; [reflexivity|split; [eexists; reflexivity|reflexivity]]).
Qed.

Lemma X12_witness :
  let contents := [mkContent (Some [mkPart (Some "Reply to jo@x.io about lunch") None])] in
  fst (classify (if piiRedaction DEFAULT_POLICIES
                 then redactedParts (redact (flat_parts contents))
                 else flat_parts contents)) <> HIGH /\
  let '(o, sent, t') := apiCall DEFAULT_POLICIES (mkEnv "req-2" None 0) contents "gemini"
                          "chat" (fun _ => mkResponse None) [] in
  sent = Some contents /\ (exists ctx, t' = [] ++ [entry_of ctx]) /\
  o = match fst (validate (mkResponse None)
                   (fst (classify (if piiRedaction DEFAULT_POLICIES
                                   then redactedParts (redact (flat_parts contents))
                                   else flat_parts contents)))) with
      | BLOCKED => ApiThrew "Governance Output Block: Output blocked: PII detected in output"
      | _ => ApiReturned (mkResponse None)
      end.
Proof.
  cbv zeta.
  assert (H : fst (classify (if piiRedaction DEFAULT_POLICIES
      then redactedParts (redact (flat_parts
             [mkContent (Some [mkPart (Some "Reply to jo@x.io about lunch") None])]))
      else flat_parts [mkContent (Some [mkPart (Some "Reply to jo@x.io about lunch") None])]))
      <> HIGH) by (vm_compute; discriminate).
  split; [exact H|].
  exact (X12_apiCall_sends_original_contents DEFAULT_POLICIES (mkEnv "req-2" None 0) _
           "gemini" "chat" (fun _ => mkResponse None) [] H).
Defined.


(** ** [confirmHighRiskAction] *)

(** X13: outside a terminal [confirmHighRiskAction] always confirms; in a
    terminal it confirms exactly the answers ["y"] and ["yes"] in any mix of
    upper and lower case, so the empty answer (the [[y/N]] default), ["n"]
    or [" y"] are refusals. *)
Theorem X13_confirm_answers answer :
  confirmHighRiskAction false answer = true /\
  (confirmHighRiskAction true answer = true <->
   In answer ["y"; "Y"; "yes"; "yeS"; "yEs"; "yES"; "Yes"; "YeS"; "YEs"; "YES"]).
Proof.
  split; [reflexivity|]. unfold confirmHighRiskAction. cbn [negb].
  split.
  - rewrite orb_true_iff. intros [H|H]; apply ConfirmFacts.lowered_eq in H;
      rewrite <- (string_of_list_ascii_of_string answer);
      destruct (list_ascii_of_string answer) as [|c1 [|c2 [|c3 [|c4 l]]]];
      try discriminate; unfold toLowerCase in H; simpl in H.
    + injection H as H1. destruct (ConfirmFacts.lower_y c1 H1) as [->| ->]; simpl; tauto.
    + injection H as H1 H2 H3.
      destruct (ConfirmFacts.lower_y c1 H1) as [->| ->];
      destruct (ConfirmFacts.lower_e c2 H2) as [->| ->];
      destruct (ConfirmFacts.lower_s c3 H3) as [->| ->]; simpl; tauto.
  - simpl. intros H. repeat destruct H as [<-|H]; [reflexivity..|contradiction].
Qed.


(** ** The earlier [GovernanceEngine] *)

(** X14: the earlier [interceptRequest] behaves as the current one called
    with [approvalGranted = true]: same context, same [proceed] and error,
    same audit trail; so a HIGH request is let through unless
    [blockHighRisk] is on. *)
Theorem X14_v1_request_as_approved policies env input mv mp t :
  let '(r1, t1) := GovernanceEngineV1.interceptRequest policies env input mv mp t in
  let '(r, t') := GovernanceEngine.interceptRequest policies env input mv mp (Some true) t in
  GovernanceEngineV1.v1_context r1 = rq_context r /\
  GovernanceEngineV1.v1_proceed r1 = rq_proceed r /\
  GovernanceEngineV1.v1_error r1 = rq_error r /\ t1 = t'.
Proof.
  unfold GovernanceEngineV1.interceptRequest, GovernanceEngine.interceptRequest. cbv zeta.
  destruct (piiRedaction policies);
    [destruct (redact input) as [rp w j]; cbn [redactedParts wasRedacted justifications]|];
    match goal with |- context [classify ?ri] =>
      destruct (classify ri) as [lvl cat] end;
    destruct (blockHighRisk policies); destruct lvl; simpl; repeat split.
Qed.

(** X15: the earlier [interceptResponse] returns the response it was given,
    never rewritten; [proceed] is false exactly for BLOCKED; its [decision]
    field is the decision recorded in the context (absent for BLOCKED); and
    it writes the same audit entry as the current version. *)
Theorem X15_v1_response_unmodified ctx response t :
  let d := fst (validate response (level_or_low (riskLevel ctx))) in
  let '(c1, res, t1) := GovernanceEngineV1.interceptResponse ctx response t in
  GovernanceEngineV1.v1_response res = response /\ t1 = t ++ [entry_of c1] /\
  guardrailDecision c1 = Some d /\
  GovernanceEngineV1.v1_rproceed res = match d with BLOCKED => false | _ => true end /\
  GovernanceEngineV1.v1_decision res =
    match d with
    | BLOCKED => None
    | FLAGGED_FOR_REVIEW => Some "FLAGGED_FOR_REVIEW"
    | APPROVED => Some "APPROVED"
    end /\
  snd (GovernanceEngine.interceptResponse ctx response t) = t1.
Proof.
  cbv zeta. unfold GovernanceEngineV1.interceptResponse, GovernanceEngine.interceptResponse, log.
  change (riskLevel (set_output ctx (Some response))) with (riskLevel ctx).
  destruct (validate response (level_or_low (riskLevel ctx))) as [d r].
  destruct d; destruct r; try destruct (add_warning _ _); repeat split.
Qed.


(** ** Which texts [redact] can change *)

(** X16: every match of the five patterns holds an ["@"], a ["-"] or a
    digit; so when no text of the parts has one, [redact] returns the parts
    as they are, with [wasRedacted = false] and no justification. *)
Theorem X16_redact_needs_key_char ps :
  (forall p s, In p ps -> truthy (text p) = Some s ->
   forall c, In c (text_chars s) -> c <> "@"%char /\ c <> "-"%char /\ is_digit c = false) ->
  redact ps = mkRedactResult ps false [].
Proof.
  intros H. unfold redact.
  rewrite (RedactChange.redact_map_noop ps (false, [])); [reflexivity|].
  intros p s Hp Hs. apply KeyFree.key_free_clean. intros c Hc.
  destruct (H p s Hp Hs c Hc) as (H1 & H2 & H3). unfold keyc.
  rewrite H3, orb_false_r.
  destruct (Ascii.eqb c "@"%char) eqn:E1; [apply Ascii.eqb_eq in E1; contradiction|].
  destruct (Ascii.eqb c "-"%char) eqn:E2; [apply Ascii.eqb_eq in E2; contradiction|].
  reflexivity.
Qed.

Lemma X16_witness :
  let ps := [mkPart (Some "Contact Jane Doe at the Paris office, PROJECT X.") None;
             mkPart None (Some "inlineData")] in
  (forall p s, In p ps -> truthy (text p) = Some s ->
   forall c, In c (text_chars s) -> c <> "@"%char /\ c <> "-"%char /\ is_digit c = false) /\
  redact ps = mkRedactResult ps false [].
Proof.
  cbv zeta.
  assert (H : forall p s, In p [mkPart (Some "Contact Jane Doe at the Paris office, PROJECT X.") None;
                                mkPart None (Some "inlineData")] ->
              truthy (text p) = Some s ->
              forall c, In c (text_chars s) ->
              c <> "@"%char /\ c <> "-"%char /\ is_digit c = false).
  { intros p s [<-|[<-|[]]] Hs; simpl in Hs; [|discriminate].
    injection Hs as <-. intros c Hc. simpl in Hc.
    repeat (destruct Hc as [<-|Hc]; [split; [discriminate|split; [discriminate|reflexivity]]|]).
    contradiction. }
  split; [exact H|exact (X16_redact_needs_key_char _ H)].
Defined.

End GovExtra.
